(** * A JWKS server backed by SQLite: the key store, the key lifecycle and
      the two request handlers of [server.mjs], embedded in Rocq.

    The development follows the source file from top to bottom:
    time helpers, the [keys] table and its data access functions, key
    generation, the ensure-present policies, the Express middlewares
    (the JSON body parser, CORS, the 405 guard) and the two routes.
    Integers that pass through JavaScript are numbers (binary64), and a
    call that can throw returns a [Try].

    The environment of the program is made explicit in a [World]:
    - the SQLite database: the rows of table [keys] in rowid order and
      the AUTOINCREMENT counter;
    - the wall clock, as the sequence of values that successive calls of
      [Date.now()] return;
    - the number of RSA key pairs the crypto library has produced so far.
    RSA keys, their public halves and signatures are symbolic: the
    program never looks inside them. *)

From Stdlib Require Import ZArith NArith QArith Qround List Lia Ascii.
From Stdlib Require Import Permutation Sorted.
From stdpp Require Import base tactics option list strings gmap pretty.

Local Open Scope Z_scope.

(** ** The world the server runs in *)

(** The private key of the [serial]-th pair returned by
    [generateKeyPair("RS256", {modulusLength: 2048})]. Column [key] holds
    its PKCS#1 PEM text, from which [createPrivateKey] gives the key back. *)
Inductive PrivateKey : Type :=
  | RsaPrivateKey (serial : nat).

(** What [createPublicKey] and [exportJWK] extract: modulus and exponent. *)
Inductive PublicKey : Type :=
  | RsaPublicKey (priv : PrivateKey).

Global Instance PrivateKey_eq_dec : EqDecision PrivateKey.
Proof. solve_decision. Defined.

(** One row of [keys(kid INTEGER PRIMARY KEY AUTOINCREMENT, key BLOB, exp INTEGER)]:
    the rowid, the PEM of an RSA key and an integer expiration, which is
    what the program stores there. *)
Record Row : Type := mkRow {
  kid : Z;
  key : PrivateKey;
  exp : Z
}.

Global Instance Row_eq_dec : EqDecision Row.
Proof. solve_decision. Defined.

Record Database : Type := mkDatabase {
  keys : list Row;          (* table [keys], in rowid order *)
  sqlite_sequence : Z       (* largest rowid ever handed out *)
}.

Record World : Type := mkWorld {
  db : Database;
  clock : nat -> Z;         (* [clock i]: what the i-th [Date.now()] returns, in ms *)
  ticks : nat;              (* how many times the clock has been read *)
  keypairs : nat            (* how many RSA pairs have been generated *)
}.

Definition withDb (d : Database) (w : World) : World :=
  {| db := d; clock := clock w; ticks := ticks w; keypairs := keypairs w |}.

(** Effectful code is a state transformer over the world. *)
Definition M (A : Type) : Type := World -> A * World.

Global Instance M_ret : MRet M := fun A (a : A) w => (a, w).
Global Instance M_bind : MBind M :=
  fun A B (f : A -> M B) (m : M A) w => let '(a, w') := m w in f a w'.

Definition result {A} (m : M A) (w : World) : A := fst (m w).
Definition after {A} (m : M A) (w : World) : World := snd (m w).

(** What a call that can throw comes back with: its value, or the
    message of the exception. *)
Inductive Try (A : Type) : Type :=
  | Returned (a : A)
  | Thrown (message : string).
Arguments Returned {A} a.
Arguments Thrown {A} message.

(** [x ←! m; k]: run [m] and go on with [k] unless [m] threw. *)
Definition tryBind {A B} (m : M (Try A)) (k : A -> M (Try B)) : M (Try B) :=
  r ← m;
  match r with
  | Returned a => k a
  | Thrown message => mret (Thrown message)
  end.

Notation "x ←! m ; k" := (tryBind m (fun x => k))
  (at level 20, m at level 100, k at level 200, only parsing).

(** [try { body } catch (e) { handler(e.message) }] *)
Definition tryCatch {A} (body : M (Try A)) (handler : string -> M A) : M A :=
  r ← body;
  match r with
  | Returned a => mret a
  | Thrown message => handler message
  end.

(** ** Time helpers *)

(** Reading the clock uses up one of its values. *)
Definition tick (w : World) : World :=
  {| db := db w; clock := clock w; ticks := S (ticks w); keypairs := keypairs w |}.

(** [Date.now()] returns a time value: an integer number of milliseconds
    no further than 8.64e15 from the epoch. Whatever the clock sequence
    holds, it is read through [timeValue], which keeps it in that range. *)
Definition maxTime : Z := 8640000000000000.
Definition timeValue (ms : Z) : Z := Z.max (- maxTime) (Z.min maxTime ms).

Definition nowMs : M Z :=
  fun w => (timeValue (clock w (ticks w)), tick w).

(** [Math.floor(nowMs() / 1000)]; [Z.div] rounds towards minus infinity.
    On time values the binary64 quotient has the same floor as the exact
    one: it is either exact or at least 0.001 away from the next integer,
    more than half a unit in the last place of any quotient below 2^43. *)
Definition nowSec : M Z :=
  ms ← nowMs; mret (ms / 1000).

(** [secondAt w i]: what the [i]-th call of [nowSec()] returns;
    [snapshot w]: what the next call returns in [w];
    [lastRead w k]: what the [k]-th most recent call returned. *)
Definition secondAt (w : World) (i : nat) : Z := timeValue (clock w i) / 1000.
Definition snapshot (w : World) : Z := secondAt w (ticks w).
Definition lastRead (w : World) (k : nat) : Z := secondAt w (ticks w - k).

(** ** JavaScript numbers *)

(** The binary64 number nearest to the integer [z], ties to the even
    significand: [z] itself below 2^53, a multiple of the unit in the last
    place beyond. The exponent range of binary64 is not modelled: it is
    reached neither by a sum of a second of the clock and a finite
    number nor by a rowid. *)
Definition toNumber (z : Z) : Z :=
  let a := Z.abs z in
  if a <? 2 ^ 53 then z
  else
    let ulp := 2 ^ (Z.log2 a - 52) in
    let q := a / ulp in
    let r := a mod ulp in
    let q' := if 2 * r <? ulp then q
              else if ulp <? 2 * r then q + 1
              else if Z.even q then q else q + 1 in
    Z.sgn z * (q' * ulp).

(** [a + b] on two integers that are numbers: the exact sum, rounded. *)
Definition jsAdd (a b : Z) : Z := toNumber (a + b).

(** ** Data access *)

(** [ORDER BY]: a stable insertion sort of the rows scanned in rowid
    order. [before r x] says that [r] may come before [x]. SQL leaves the
    order of rows with equal sort keys open; here they stay in rowid
    order, so that a statement is a function of the table as it is in
    SQLite. *)
Fixpoint insertBy (before : Row -> Row -> bool) (r : Row) (l : list Row) : list Row :=
  match l with
  | [] => [r]
  | x :: xs => if before r x then r :: l else x :: insertBy before r xs
  end.

Definition orderBy (before : Row -> Row -> bool) (l : list Row) : list Row :=
  foldr (insertBy before) [] l.

Definition expAsc (r x : Row) : bool := exp r <=? exp x.
Definition expDesc (r x : Row) : bool := exp x <=? exp r.

(** The two [WHERE] clauses, with the bound parameter [t]. *)
Definition isActiveAt (t : Z) (r : Row) : bool := t <? exp r.       (* exp > ? *)
Definition isExpiredAt (t : Z) (r : Row) : bool := exp r <=? t.     (* exp <= ? *)

(** The prepared statements, run on the table with [t] bound to [?]. *)
Definition sqlOneExpired (t : Z) (rows : list Row) : option Row :=
  head (orderBy expDesc (List.filter (isExpiredAt t) rows)).
Definition sqlOneActive (t : Z) (rows : list Row) : option Row :=
  head (orderBy expAsc (List.filter (isActiveAt t) rows)).
Definition sqlAllValid (t : Z) (rows : list Row) : list Row :=
  orderBy expAsc (List.filter (isActiveAt t) rows).
Definition sqlHasActive (t : Z) (rows : list Row) : bool :=
  existsb (isActiveAt t) rows.
Definition sqlHasExpired (t : Z) (rows : list Row) : bool :=
  existsb (isExpiredAt t) rows.

Definition sqlSelectOne (wantExpired : bool) (t : Z) (rows : list Row) : option Row :=
  if wantExpired then sqlOneExpired t rows else sqlOneActive t rows.

(** A read-only statement run on the table. *)
Definition dbGet {A} (f : list Row -> A) : M A :=
  fun w => (f (keys (db w)), w).

(** The driver hands a row over as an object whose [kid] and [exp] are
    numbers. A [Row] below is the stored record; [kidOf] and [expOf] are
    what [row.kid] and [row.exp] read in JavaScript. *)
Definition kidOf (row : Row) : Z := toNumber (kid row).
Definition expOf (row : Row) : Z := toNumber (exp row).

(** AUTOINCREMENT: one more than the largest rowid that ever existed. *)
Definition maxRowid (rows : list Row) : Z :=
  foldr (fun r m => Z.max (kid r) m) 0 rows.

Definition nextRowid (d : Database) : Z :=
  Z.max (sqlite_sequence d) (maxRowid (keys d)) + 1.

(** Rowids end at 2^63 - 1. Once the largest one has been handed out,
    SQLite refuses to insert into an AUTOINCREMENT table, and the driver
    throws with this message. *)
Definition lastRowid : Z := 9223372036854775807.
Definition SQLITE_FULL : string := "database or disk is full".

Definition tableFull (d : Database) : bool :=
  lastRowid <=? Z.max (sqlite_sequence d) (maxRowid (keys d)).

(** The row is stored under the rowid; [Number(info.lastInsertRowid)] is
    returned. *)
Definition insertKey (pem : PrivateKey) (exp : Z) : M (Try Z) :=
  fun w =>
    if tableFull (db w) then (Thrown SQLITE_FULL, w)
    else
      let rowid := nextRowid (db w) in
      (Returned (toNumber rowid),
       withDb {| keys := keys (db w) ++ [mkRow rowid pem exp];
                 sqlite_sequence := rowid |} w).

Definition selectOneKey (wantExpired : bool) : M (option Row) :=
  t ← nowSec;
  if wantExpired then dbGet (sqlOneExpired t) else dbGet (sqlOneActive t).

Definition selectAllValidKeys : M (list Row) :=
  t ← nowSec; dbGet (sqlAllValid t).

Definition hasActiveKey : M bool :=
  t ← nowSec; dbGet (sqlHasActive t).

Definition hasExpiredKey : M bool :=
  t ← nowSec; dbGet (sqlHasExpired t).

Definition countKeys : M Z :=
  dbGet (fun rows => Z.of_nat (length rows)).

(** ** Key generation *)

Definition generateKeyPair : M PrivateKey :=
  fun w => (RsaPrivateKey (keypairs w),
            {| db := db w; clock := clock w; ticks := ticks w; keypairs := S (keypairs w) |}).

(** [ttlSeconds] is a JavaScript number, given by its value; [Math.floor]
    is [Qfloor] and [+] is the addition of numbers. *)
Definition generateAndStoreRsaKey (ttlSeconds : Q) : M (Try (Z * Z)) :=
  privateKey ← generateKeyPair;
  t ← nowSec;
  let exp := jsAdd t (Qfloor ttlSeconds) in
  kid ←! insertKey privateKey exp;
  mret (Returned (kid, exp)).

Definition ensureSeedKeys : M (Try unit) :=
  c ← countKeys;
  if 0 <? c then mret (Returned tt)
  else
    _ ←! generateAndStoreRsaKey (inject_Z (60 * 60));
    _ ←! generateAndStoreRsaKey (inject_Z (-5 * 60));
    mret (Returned tt).

Definition ensureActiveKeyPresent : M (Try unit) :=
  active ← hasActiveKey;
  if negb active then
    _ ←! generateAndStoreRsaKey (inject_Z (60 * 60)); mret (Returned tt)
  else mret (Returned tt).

Definition ensureExpiredKeyPresent : M (Try unit) :=
  expired ← hasExpiredKey;
  if negb expired then
    _ ←! generateAndStoreRsaKey (inject_Z (-60)); mret (Returned tt)
  else mret (Returned tt).

(** ** The Express application *)

#[local] Set Warnings "-register-all".

(** What the query parser makes of a parameter: its text, an array for a
    repeated or bracketed name ([?expired[]=true]), an object for a name
    with keys ([?expired[a]=1]). This is the extended parser, the one an
    Express 4 application uses unless it is set otherwise, and
    [server.mjs] sets no parser. *)
Inductive QueryValue : Type :=
  | QString (s : string)
  | QArray (items : list QueryValue)
  | QObject (fields : list (string * QueryValue)).

(** [String(v)]: an array is its items joined by commas, an object is
    ["[object Object]"]. An object with a member [toString] of its own,
    which the query parser of Express 4 lets a query string define and
    which is no function, has no primitive value: the conversion throws
    a [TypeError]. *)
Definition notPrimitive : string := "Cannot convert object to primitive value".

Definition hasOwnToString (fields : list (string * QueryValue)) : bool :=
  existsb (fun field => bool_decide (fst field = "toString")) fields.

(** The items of an array, converted from left to right and joined. *)
Fixpoint joinItems (items : list (Try string)) : Try string :=
  match items with
  | [] => Returned ""
  | [item] => item
  | item :: rest =>
      match item with
      | Thrown message => Thrown message
      | Returned s =>
          match joinItems rest with
          | Thrown message => Thrown message
          | Returned t => Returned (s +:+ "," +:+ t)
          end
      end
  end.

Fixpoint jsString (v : QueryValue) : Try string :=
  match v with
  | QString s => Returned s
  | QArray items => joinItems (List.map jsString items)
  | QObject fields =>
      if hasOwnToString fields then Thrown notPrimitive else Returned "[object Object]"
  end.

(** The errors of [express.json()] and their status codes. *)
Inductive BodyError : Type :=
  | Malformed          (* not JSON, or not an object or array: 400 *)
  | TooLarge           (* over the size limit: 413 *)
  | Unsupported.       (* charset or content encoding: 415 *)

Definition errorStatus (e : BodyError) : Z :=
  match e with
  | Malformed => 400
  | TooLarge => 413
  | Unsupported => 415
  end.

(** What [express.json()] makes of the body of a request: nothing to
    object to (no body, a body that is not JSON by its content type, or
    well-formed JSON), or an error. *)
Inductive BodyParse : Type :=
  | BodyAccepted
  | BodyRejected (e : BodyError).

Module Jwk.
Record t : Type := mk {
  n_e : PublicKey;        (* members [n] and [e] written by [exportJWK] *)
  kid : string;
  kty : string;
  use : string;
  alg : string
}.
End Jwk.

Module Jwt.
Record Header : Type := mkHeader {
  alg : string;
  kid : string
}.
Record Claims : Type := mkClaims {
  sub : string;
  iss : string;
  aud : string;
  kid_db : string;
  iat : Z;
  exp : Z
}.
(** The compact serialization: protected header, payload and the RS256
    signature over both, named by the key that made it. *)
Record t : Type := mk {
  header : Header;
  payload : Claims;
  signedBy : PrivateKey
}.
End Jwt.

Inductive Body : Type :=
  | NoBody
  | JsonError (error : string)                 (* {error: ...} *)
  | JsonKeys (keys : list Jwk.t)               (* {keys: [...]} *)
  | JsonToken (jwt token : Jwt.t)              (* {jwt: ..., token: ...} *)
  | HtmlError.                                 (* the error page of Express *)

(** [req.query] maps a parameter name to its value; [method] is the
    upper-case verb Node hands over. [fresh b] says whether the
    validators the request carries ([If-None-Match], unless
    [Cache-Control: no-cache] overrides it) match the entity tag that
    Express computes for the body [b]; it is false for every body when
    the request has no validators. *)
Record Request : Type := mkRequest {
  method : string;
  path : string;
  query : gmap string QueryValue;
  bodyParse : BodyParse;
  fresh : Body -> bool
}.

(** No validators. *)
Definition stale : Body -> bool := fun _ => false.

(** Of the headers of an answer, those that the program sets or that
    [res.json], [res.sendStatus] and the error page of Express decide;
    the ones that Express and Node add to every answer on their own
    ([X-Powered-By], [ETag], [Content-Length], [Date], [Connection]) are
    left out. *)
Record Response : Type := mkResponse {
  status : Z;
  headers : gmap string string;
  body : Body
}.

(** The response object a request starts with. *)
Definition freshResponse : Response :=
  {| status := 200; headers := ∅; body := NoBody |}.

Definition setHeader (name value : string) (res : Response) : Response :=
  {| status := status res; headers := <[name := value]> (headers res); body := body res |}.

Definition setStatus (code : Z) (res : Response) : Response :=
  {| status := code; headers := headers res; body := body res |}.

(** What goes on the wire as body: nothing in answer to HEAD. *)
Definition sentBody (req : Request) (b : Body) : Body :=
  if bool_decide (method req = "HEAD") then NoBody else b.

(** [req.fresh], once the status [code] and the body [b] of the answer
    are known: a GET or HEAD answered 2xx or 304 whose validators match. *)
Definition isFresh (req : Request) (code : Z) (b : Body) : bool :=
  ((200 <=? code) && (code <? 300) || (code =? 304))
  && (bool_decide (method req = "GET") || bool_decide (method req = "HEAD"))
  && fresh req b.

(** [res.json(b)], on the response to [req]: a fresh request is answered
    304 without content. *)
Definition json (req : Request) (b : Body) (res : Response) : Response :=
  if isFresh req (status res) b then
    {| status := 304; headers := delete "Content-Type" (headers res); body := NoBody |}
  else
    {| status := status res;
       headers := <["Content-Type" := "application/json; charset=utf-8"]> (headers res);
       body := sentBody req b |}.

(** The answer of Express to an error passed to [next]: an HTML page. *)
Definition errorPage (req : Request) (code : Z) (res : Response) : Response :=
  {| status := code;
     headers := <["Content-Type" := "text/html; charset=utf-8"]>
                  (<["X-Content-Type-Options" := "nosniff"]>
                     (<["Content-Security-Policy" := "default-src 'none'"]> (headers res)));
     body := sentBody req HtmlError |}.

(** [res.sendStatus(code)]: for 204 Express sends no content and no
    content headers. *)
Definition sendStatus (code : Z) (res : Response) : Response :=
  {| status := code; headers := headers res; body := NoBody |}.

(** A middleware either ends the response or calls [next()]. *)
Inductive Outcome : Type :=
  | Sent (res : Response)
  | Next (res : Response).

Definition Middleware : Type := Request -> Response -> M Outcome.

(** [express.json()]: a body it cannot parse ends the request with the
    error page. *)
Definition expressJson : Middleware := fun req res =>
  match bodyParse req with
  | BodyAccepted => mret (Next res)
  | BodyRejected e => mret (Sent (errorPage req (errorStatus e) res))
  end.

(** CORS *)
Definition cors : Middleware := fun req res =>
  let res := setHeader "Access-Control-Allow-Origin" "*" res in
  let res := setHeader "Access-Control-Allow-Headers" "Content-Type, Authorization" res in
  let res := setHeader "Access-Control-Allow-Methods" "GET,POST,OPTIONS" res in
  if bool_decide (method req = "OPTIONS") then mret (Sent (sendStatus 204 res))
  else mret (Next res).

(** 405 guard *)
Definition methodGuard (allowed : list string) (allowHeader : string) : Middleware :=
  fun req res =>
    if negb (bool_decide (method req ∈ allowed)) then
      let res := setHeader "Allow" allowHeader res in
      mret (Sent (json req (JsonError "not allowed") (setStatus 405 res)))
    else mret (Next res).

(** Route paths are matched the way Express does by default: letter case
    is ignored and one trailing slash is allowed. *)
Definition lowerChar (c : ascii) : ascii :=
  let n := N_of_ascii c in
  if ((65 <=? n) && (n <=? 90))%N then ascii_of_N (n + 32) else c.

Fixpoint toLowerCase (s : string) : string :=
  match s with
  | EmptyString => EmptyString
  | String c s' => String (lowerChar c) (toLowerCase s')
  end.

Definition pathMatches (route p : string) : bool :=
  let q := toLowerCase p in
  bool_decide (q = route) || bool_decide (q = route +:+ "/").

(** [app.all(route, mw)] *)
Definition all (route : string) (mw : Middleware) : Middleware :=
  fun req res => if pathMatches route (path req) then mw req res else mret (Next res).

(** [app.get(routes, handler)]; Express also sends HEAD requests there. *)
Definition get (routes : list string) (handler : Request -> Response -> M Response) : Middleware :=
  fun req res =>
    if (bool_decide (method req = "GET") || bool_decide (method req = "HEAD"))
       && existsb (fun route => pathMatches route (path req)) routes
    then r ← handler req res; mret (Sent r)
    else mret (Next res).

(** [app.post(route, handler)] *)
Definition post (route : string) (handler : Request -> Response -> M Response) : Middleware :=
  fun req res =>
    if bool_decide (method req = "POST") && pathMatches route (path req)
    then r ← handler req res; mret (Sent r)
    else mret (Next res).

(** [app.use(handler)] for a handler that always answers. *)
Definition use (handler : Request -> Response -> M Response) : Middleware :=
  fun req res => r ← handler req res; mret (Sent r).

(** Helpers *)
Definition keyObjectFromDbRow (row : Row) : PrivateKey := key row.

Definition publicJwkFromPrivateKey (privateKey : PrivateKey) (kidLabel : string) : Jwk.t :=
  {| Jwk.n_e := RsaPublicKey privateKey;
     Jwk.kid := kidLabel;
     Jwk.kty := "RSA";
     Jwk.use := "sig";
     Jwk.alg := "RS256" |}.

Definition isExpiredRow (row : Row) : M bool :=
  t ← nowSec; mret (expOf row <=? t).

Definition kidLabelForRow (row : Row) : M string :=
  expired ← isExpiredRow row;
  let label : string := if expired : bool then "key-expired-1" else "key-active-1" in
  mret label.

(** Routes. Each handler body sits in a [try] whose [catch] answers 500
    with the message of the exception. What throws there is the insert
    into a full table and, in the auth route, the conversion of a query
    value to text; the keys of the table are RSA keys that the crypto
    library reads back and signs with. *)
Definition jwksHandler (req : Request) (res : Response) : M Response :=
  tryCatch
    (_ ←! ensureActiveKeyPresent;
     rows ← selectAllValidKeys;
     rows ←! (match rows with
              | [] =>
                  _ ←! ensureActiveKeyPresent;
                  rows ← selectAllValidKeys;
                  mret (Returned rows)
              | _ :: _ => mret (Returned rows)
              end);
     match rows with
     | [] =>
         mret (Returned (json req (JsonError "no keys available") (setStatus 404 res)))
     | r :: _ =>
         (* the loop body runs for the first row and then breaks *)
         let privKeyObj := keyObjectFromDbRow r in
         kidLabel ← kidLabelForRow r;
         let jwk := publicJwkFromPrivateKey privKeyObj kidLabel in
         mret (Returned (json req (JsonKeys [jwk]) (setStatus 200 res)))
     end)
    (fun message => mret (json req (JsonError message) (setStatus 500 res))).

(** ["expired" in req.query && (req.query.expired === "" || ...)] *)
Definition isEmptyString (v : QueryValue) : bool :=
  match v with
  | QString s => bool_decide (s = "")
  | _ => false
  end.

Definition wantExpired (req : Request) : Try bool :=
  match query req !! "expired" with
  | Some v =>
      if isEmptyString v then Returned true
      else
        match jsString v with
        | Returned s =>
            Returned (bool_decide (toLowerCase s = "1")
                      || bool_decide (toLowerCase s = "true"))
        | Thrown message => Thrown message
        end
  | None => Returned false
  end.

Definition signJwt (row : Row) (kidLabel : string) (iat exp : Z) (privateKeyObj : PrivateKey) : Jwt.t :=
  {| Jwt.header := {| Jwt.alg := "RS256"; Jwt.kid := kidLabel |};
     Jwt.payload := {| Jwt.sub := "userABC";
                       Jwt.iss := "jwks-server";
                       Jwt.aud := "gradebot";
                       Jwt.kid_db := pretty (kidOf row);
                       Jwt.iat := iat;
                       Jwt.exp := exp |};
     Jwt.signedBy := privateKeyObj |}.

Definition authHandler (req : Request) (res : Response) : M Response :=
  tryCatch
    (wantExpired ←! mret (wantExpired req);
     let ensure := if wantExpired then ensureExpiredKeyPresent else ensureActiveKeyPresent in
     _ ←! ensure;
     row ← selectOneKey wantExpired;
     row ←! (match row with
             | None => _ ←! ensure; row ← selectOneKey wantExpired; mret (Returned row)
             | Some _ => mret (Returned row)
             end);
     match row with
     | None =>
         let which : string := if wantExpired then "expired" else "active" in
         mret (Returned (json req (JsonError ("No " +:+ which +:+ " key available"))
                           (setStatus 401 res)))
     | Some row =>
         let privateKeyObj := keyObjectFromDbRow row in
         iat ← nowSec;
         let exp := if wantExpired then expOf row else jsAdd iat (60 * 5) in
         kidLabel ← kidLabelForRow row;
         let token := signJwt row kidLabel iat exp privateKeyObj in
         mret (Returned (json req (JsonToken token token) (setStatus 200 res)))
     end)
    (fun message => mret (json req (JsonError message) (setStatus 500 res))).

(** 404 *)
Definition notFound (req : Request) (res : Response) : M Response :=
  mret (json req (JsonError "not found") (setStatus 404 res)).

(** The middleware stack in registration order. [morgan] only logs and
    is left out. *)
Definition stack : list Middleware :=
  [ expressJson;
    cors;
    all "/jwks" (methodGuard ["GET"] "GET");
    all "/.well-known/jwks.json" (methodGuard ["GET"] "GET");
    all "/auth" (methodGuard ["POST"] "POST");
    get ["/jwks"; "/.well-known/jwks.json"] jwksHandler;
    post "/auth" authHandler;
    use notFound ]%string.

Fixpoint dispatch (layers : list Middleware) (req : Request) (res : Response) : M Response :=
  match layers with
  | [] => mret (setStatus 404 res)
  | mw :: rest =>
      o ← mw req res;
      match o with
      | Sent r => mret r
      | Next r => dispatch rest req r
      end
  end.

Definition app (req : Request) : M Response :=
  dispatch stack req freshResponse.

(** Startup: an exception here ends the process before it listens. *)
Definition startup : M (Try unit) := ensureSeedKeys.

(** ** Sample worlds *)

Definition emptyDb : Database := {| keys := []; sqlite_sequence := 0 |}.

(** A world whose clock stands at [ms] milliseconds. *)
Definition worldAt (ms : Z) (d : Database) : World :=
  {| db := d; clock := fun _ => ms; ticks := 0; keypairs := 0 |}.

(** Requests without a body and without validators. *)
Definition GET (p : string) : Request :=
  {| method := "GET"; path := p; query := ∅; bodyParse := BodyAccepted; fresh := stale |}.
Definition POST (p : string) (q : gmap string QueryValue) : Request :=
  {| method := "POST"; path := p; query := q; bodyParse := BodyAccepted; fresh := stale |}.

(** ** What the selection picks *)

(** A row qualifies for the expired query when [exp <= t] and for the
    active one when [exp > t]. *)
Definition qualifies (wantExpired : bool) (t : Z) (r : Row) : Prop :=
  if wantExpired then exp r <= t else t < exp r.

(** [preferred wantExpired a b]: expiration [a] is at least as good as [b],
    that is later for expired keys and sooner for active ones. *)
Definition preferred (wantExpired : bool) (a b : Z) : Prop :=
  if wantExpired then b <= a else a <= b.

(** [r] is the qualifying row with the best expiration, and among the
    qualifying rows with that expiration the one with the lowest rowid. *)
Definition Selected (wantExpired : bool) (t : Z) (rows : list Row) (r : Row) : Prop :=
  exists l1 l2,
    rows = l1 ++ r :: l2 /\
    qualifies wantExpired t r /\
    (forall x, In x l1 -> qualifies wantExpired t x -> ~ preferred wantExpired (exp x) (exp r)) /\
    (forall x, In x l2 -> qualifies wantExpired t x -> preferred wantExpired (exp r) (exp x)).

(** [r] is first among the best of [l] for the order [before]. *)
Definition FirstBest (before : Row -> Row -> bool) (l : list Row) (r : Row) : Prop :=
  exists l1 l2,
    l = l1 ++ r :: l2 /\
    (forall x, In x l1 -> before x r = false) /\
    (forall x, In x l2 -> before r x = true).

(** ** Worlds along a run *)

(** The [WHERE] clause of [selectOneKey] as one function of the flag. *)
Definition whereClause (wantExpired : bool) (t : Z) : Row -> bool :=
  if wantExpired then isExpiredAt t else isActiveAt t.

(** The world after [generateAndStoreRsaKey]: one key pair more, one clock
    read more, one row more. *)
Definition stored (ttlSeconds : Q) (w : World) : World :=
  {| db := {| keys := keys (db w) ++
                      [mkRow (nextRowid (db w)) (RsaPrivateKey (keypairs w))
                             (jsAdd (snapshot w) (Qfloor ttlSeconds))];
              sqlite_sequence := nextRowid (db w) |};
     clock := clock w;
     ticks := S (ticks w);
     keypairs := S (keypairs w) |}.

(** The world after a [generateAndStoreRsaKey] that threw: one key pair
    more, one clock read more, no row. *)
Definition spent (w : World) : World :=
  {| db := db w; clock := clock w; ticks := S (ticks w); keypairs := S (keypairs w) |}.

(** The world after [generateAndStoreRsaKey], thrown or not. *)
Definition generated (ttlSeconds : Q) (w : World) : World :=
  if tableFull (db w) then spent w else stored ttlSeconds w.

(** The table has room for [n] more rows. *)
Definition Room (n : Z) (d : Database) : Prop :=
  Z.max (sqlite_sequence d) (maxRowid (keys d)) + n <= lastRowid.

(** ** More sample worlds *)

(** An expired key and two active keys with the same expiration, as two
    requests that both saw no active key leave them behind. *)
Definition duplicatedDb : Database :=
  {| keys := [ mkRow 1 (RsaPrivateKey 0) 1699999700;
               mkRow 2 (RsaPrivateKey 1) 1700003600;
               mkRow 3 (RsaPrivateKey 2) 1700003600 ];
     sqlite_sequence := 3 |}.

(** A clock that leaps 4000 seconds, more than the TTL of an active key,
    between any two reads. *)
Definition leapingClock (w : World) : World :=
  {| db := db w; clock := fun i => 4000000 * Z.of_nat i; ticks := 0; keypairs := keypairs w |}.

(** The store after startup on an empty file: one active and one expired key. *)
Definition seeded : World := after startup (worldAt 1700000000000 emptyDb).

(** A key that expires at second 1000, and a clock that passes from
    second 999 to second 1000 between the second and the third read. *)
Definition aboutToExpire : World :=
  {| db := {| keys := [mkRow 1 (RsaPrivateKey 0) 1000]; sqlite_sequence := 1 |};
     clock := fun i => 999998 + Z.of_nat i;
     ticks := 0;
     keypairs := 1 |}.

(** A table that has handed out its last rowid and holds no key. *)
Definition fullAndEmpty : World :=
  worldAt 1700000000000 {| keys := []; sqlite_sequence := 9223372036854775807 |}.


(** ** Vocabulary of the statements *)

(** What [countKeys()] returns in [w]. *)
Definition count (w : World) : Z := result countKeys w.

(** Running [m] keeps every stored row where it is and as it is: the
    table afterwards is the table before, followed by the rows added. *)
Definition AppendOnly {A} (m : M A) : Prop :=
  forall w, keys (db w) `prefix_of` keys (db (after m w)).

(** Running [m] leaves the database as it was. *)
Definition ReadOnly {A} (m : M A) : Prop :=
  forall w, db (after m w) = db w.

(** A middleware that is append-only on every request. *)
Definition AppendOnlyLayer (mw : Middleware) : Prop :=
  forall req res, AppendOnly (mw req res).

(** The response once the CORS middleware has set its headers. *)
Definition corsResponse : Response :=
  setHeader "Access-Control-Allow-Methods" "GET,POST,OPTIONS"
    (setHeader "Access-Control-Allow-Headers" "Content-Type, Authorization"
       (setHeader "Access-Control-Allow-Origin" "*" freshResponse)).

(** The answer of the 405 guard. *)
Definition notAllowed (req : Request) (allowHeader : string) : Response :=
  json req (JsonError "not allowed") (setStatus 405 (setHeader "Allow" allowHeader corsResponse)).

(** [p] is served by the JWKS route. *)
Definition isJwksPath (p : string) : bool :=
  pathMatches "/jwks" p || pathMatches "/.well-known/jwks.json" p.

(** Answered 405 by the guard, naming [allow] as the only method; the
    body is [{error: "not allowed"}], left off in answer to HEAD. *)
Definition Rejected405 (allow : string) (req : Request) (w : World) : Prop :=
  let resp := result (app req) w in
  status resp = 405 /\
  headers resp !! "Allow" = Some allow /\
  body resp = (if bool_decide (method req = "HEAD") then NoBody
               else JsonError "not allowed") /\
  after (app req) w = w.


(** [w'] comes later than [w] in the same run: same clock, no fewer reads. *)
Definition Later (w w' : World) : Prop :=
  clock w' = clock w /\ (ticks w <= ticks w')%nat.

(** From [w] on, every reading of the clock falls in second [now]. *)
Definition Steady (w : World) (now : Z) : Prop :=
  forall i, (ticks w <= i)%nat -> secondAt w i = now.

(** The world once an ensure-present policy has run. *)
Definition ensuredActive (w : World) : World := after ensureActiveKeyPresent w.
Definition ensuredExpired (w : World) : World := after ensureExpiredKeyPresent w.

(** What [kidLabelForRow(r)] returns when it reads second [t]: a second
    of the clock is a number that no rounding of [exp] crosses. *)
Definition labelAt (t : Z) (r : Row) : string :=
  if exp r <=? t then "key-expired-1" else "key-active-1".

(** The 200 answer for row [r], labelled at second [t]. *)
Definition jwksOk (req : Request) (res : Response) (r : Row) (t : Z) : Response :=
  json req (JsonKeys [publicJwkFromPrivateKey (keyObjectFromDbRow r) (labelAt t r)])
       (setStatus 200 res).

(** [resp] answers the request [req] with the body [b]: with status 200,
    or with 304 and no body when the validators of [req] match [b]. *)
Definition Answered200 (req : Request) (resp : Response) (b : Body) : Prop :=
  if fresh req b then status resp = 304 /\ body resp = NoBody
  else status resp = 200 /\ body resp = b.

(** [ensureActiveKeyPresent] throws in [w]: no row is active at the second
    it reads and the table is full; likewise [ensureExpiredKeyPresent]. *)
Definition activeThrows (w : World) : bool :=
  negb (sqlHasActive (snapshot w) (keys (db w))) && tableFull (db w).
Definition expiredThrows (w : World) : bool :=
  negb (sqlHasExpired (snapshot w) (keys (db w))) && tableFull (db w).

(** The 500 answer of the [catch] of a route. *)
Definition serverError (req : Request) (res : Response) (message : string) : Response :=
  json req (JsonError message) (setStatus 500 res).

(** The 404 answer of the JWKS route. *)
Definition jwksNone (req : Request) (res : Response) : Response :=
  json req (JsonError "no keys available") (setStatus 404 res).

(** The world once the policy chosen by the flag has run, and whether
    that policy throws. *)
Definition ensured (wantExpired : bool) (w : World) : World :=
  if wantExpired then ensuredExpired w else ensuredActive w.
Definition ensureThrows (wantExpired : bool) (w : World) : bool :=
  if wantExpired then expiredThrows w else activeThrows w.

(** The 200 answer for [row], with [iat] and the label read at [t]. *)
Definition authOk (req : Request) (res : Response) (wantExpired : bool) (row : Row)
    (iat t : Z) : Response :=
  let token := signJwt row (labelAt t row) iat
                 (if wantExpired then expOf row else iat + 60 * 5)
                 (keyObjectFromDbRow row) in
  json req (JsonToken token token) (setStatus 200 res).

(** The 401 answer of the auth route. *)
Definition authNone (req : Request) (res : Response) (wantExpired : bool) : Response :=
  let which : string := if wantExpired then "expired" else "active" in
  json req (JsonError ("No " +:+ which +:+ " key available")) (setStatus 401 res).

(** ** Vocabulary of the further properties *)

(** The order [ORDER BY exp ASC] puts rows in. *)
Definition expLe (a b : Row) : Prop := exp a <= exp b.

(** The rowids of the table, in rowid order. *)
Definition kids (w : World) : list Z := map kid (keys (db w)).

(** Rowids grow along the table, so no two rows share one. *)
Definition KidsIncreasing (w : World) : Prop := StronglySorted Z.lt (kids w).

(** Running [m] keeps a property [P] of the database. *)
Definition Preserves (P : Database -> Prop) {A} (m : M A) : Prop :=
  forall w, P (db w) -> P (db (after m w)).

Definition IncreasingDb (d : Database) : Prop := StronglySorted Z.lt (map kid (keys d)).

Definition PreservesLayer (P : Database -> Prop) (mw : Middleware) : Prop :=
  forall req res, Preserves P (mw req res).

(** The clock does not run backwards from [w] on. *)
Definition Monotone (w : World) : Prop :=
  forall i j, (ticks w <= i)%nat -> (i <= j)%nat -> secondAt w i <= secondAt w j.

(** The 404 answer of the last middleware. *)
Definition notFoundResponse (req : Request) : Response :=
  json req (JsonError "not found") (setStatus 404 corsResponse).

(** The three headers the CORS middleware sets. *)
Definition HasCorsHeaders (resp : Response) : Prop :=
  headers resp !! "Access-Control-Allow-Origin" = Some "*" /\
  headers resp !! "Access-Control-Allow-Headers" = Some "Content-Type, Authorization" /\
  headers resp !! "Access-Control-Allow-Methods" = Some "GET,POST,OPTIONS".

(** The eight clock reads a request can make at most go forward and span
    less than the hour an active key lives. *)
Definition Orderly (w : World) : Prop :=
  forall i j, (ticks w <= i)%nat -> (i <= j)%nat -> (j < ticks w + 8)%nat ->
    secondAt w i <= secondAt w j < secondAt w i + 3600.

(** * Proofs *)

(** ** Facts about time values and numbers *)

Lemma timeValue_range ms : - maxTime <= timeValue ms <= maxTime.
Proof. unfold timeValue, maxTime. lia. Qed.

Lemma timeValue_in_range ms : - maxTime <= ms <= maxTime -> timeValue ms = ms.
Proof. unfold timeValue, maxTime. lia. Qed.

Lemma timeValue_mono a b : a <= b -> timeValue a <= timeValue b.
Proof. unfold timeValue. lia. Qed.

Lemma secondAt_range w i : - 8640000000000 <= secondAt w i <= 8640000000000.
Proof.
  unfold secondAt. pose proof (timeValue_range (clock w i)) as H. unfold maxTime in H.
  split.
  - apply Z.div_le_lower_bound; lia.
  - apply Z.div_le_upper_bound; lia.
Qed.

Lemma toNumber_exact z : Z.abs z < 2 ^ 53 -> toNumber z = z.
Proof.
  intros H. unfold toNumber. destruct (Z.ltb_spec (Z.abs z) (2 ^ 53)); [reflexivity | lia].
Qed.

Lemma toNumber_far_below z : z <= - 2 ^ 53 -> toNumber z <= - 2 ^ 53.
Proof.
  intros H. unfold toNumber.
  destruct (Z.ltb_spec (Z.abs z) (2 ^ 53)) as [Hlt | Hge]; [lia|].
  set (a := Z.abs z) in *. cbv zeta.
  assert (Ha : 2 ^ 53 <= a) by exact Hge.
  assert (Hlog : 53 <= Z.log2 a).
  { change 53 with (Z.log2 (2 ^ 53)). apply Z.log2_le_mono. exact Ha. }
  destruct (Z.log2_spec a ltac:(lia)) as [Hlo _].
  set (e := Z.log2 a - 52) in *.
  assert (He : 1 <= e) by (subst e; lia).
  assert (Hulp : 2 <= 2 ^ e).
  { change 2 with (2 ^ 1) at 1. apply Z.pow_le_mono_r; lia. }
  assert (Hsplit : 2 ^ Z.log2 a = 2 ^ 52 * 2 ^ e).
  { subst e. rewrite <- Z.pow_add_r by lia. f_equal. lia. }
  assert (Hq : 2 ^ 52 <= a / 2 ^ e).
  { apply Z.div_le_lower_bound; lia. }
  assert (Hq' : a / 2 ^ e <=
                (if 2 * (a mod 2 ^ e) <? 2 ^ e then a / 2 ^ e
                 else if 2 ^ e <? 2 * (a mod 2 ^ e) then a / 2 ^ e + 1
                 else if Z.even (a / 2 ^ e) then a / 2 ^ e else a / 2 ^ e + 1)).
  { destruct (_ <? _); [lia|]. destruct (_ <? _); [lia|]. destruct (Z.even _); lia. }
  replace (Z.sgn z) with (-1) by (symmetry; apply Z.sgn_neg; lia).
  assert (2 ^ 53 = 2 ^ 52 * 2) by reflexivity. nia.
Qed.

Lemma toNumber_far_above z : 2 ^ 53 <= z -> 2 ^ 53 <= toNumber z.
Proof.
  intros H. unfold toNumber.
  destruct (Z.ltb_spec (Z.abs z) (2 ^ 53)) as [Hlt | Hge]; [lia|].
  set (a := Z.abs z) in *. cbv zeta.
  assert (Ha : 2 ^ 53 <= a) by exact Hge.
  assert (Hlog : 53 <= Z.log2 a).
  { change 53 with (Z.log2 (2 ^ 53)). apply Z.log2_le_mono. exact Ha. }
  destruct (Z.log2_spec a ltac:(lia)) as [Hlo _].
  set (e := Z.log2 a - 52) in *.
  assert (He : 1 <= e) by (subst e; lia).
  assert (Hulp : 2 <= 2 ^ e).
  { change 2 with (2 ^ 1) at 1. apply Z.pow_le_mono_r; lia. }
  assert (Hsplit : 2 ^ Z.log2 a = 2 ^ 52 * 2 ^ e).
  { subst e. rewrite <- Z.pow_add_r by lia. f_equal. lia. }
  assert (Hq : 2 ^ 52 <= a / 2 ^ e).
  { apply Z.div_le_lower_bound; lia. }
  assert (Hq' : a / 2 ^ e <=
                (if 2 * (a mod 2 ^ e) <? 2 ^ e then a / 2 ^ e
                 else if 2 ^ e <? 2 * (a mod 2 ^ e) then a / 2 ^ e + 1
                 else if Z.even (a / 2 ^ e) then a / 2 ^ e else a / 2 ^ e + 1)).
  { destruct (_ <? _); [lia|]. destruct (_ <? _); [lia|]. destruct (Z.even _); lia. }
  replace (Z.sgn z) with 1 by (symmetry; apply Z.sgn_pos; lia).
  assert (2 ^ 53 = 2 ^ 52 * 2) by reflexivity. nia.
Qed.

(** Rounding to a number does not cross an integer below 2^53. *)
Lemma toNumber_le z t : Z.abs t < 2 ^ 53 -> toNumber z <= t <-> z <= t.
Proof.
  intros Ht.
  destruct (Z.lt_ge_cases (Z.abs z) (2 ^ 53)) as [Hz | Hz];
    [rewrite toNumber_exact by exact Hz; reflexivity|].
  destruct (Z.le_gt_cases 0 z) as [Hpos | Hneg].
  - pose proof (toNumber_far_above z ltac:(lia)). lia.
  - pose proof (toNumber_far_below z ltac:(lia)). lia.
Qed.

Lemma expOf_leb r w i : (expOf r <=? secondAt w i) = (exp r <=? secondAt w i).
Proof.
  pose proof (secondAt_range w i) as Hr.
  assert (Ht : Z.abs (secondAt w i) < 2 ^ 53)
    by (change (2 ^ 53) with 9007199254740992; lia).
  pose proof (toNumber_le (exp r) _ Ht) as H. unfold expOf.
  destruct (Z.leb_spec (toNumber (exp r)) (secondAt w i)),
           (Z.leb_spec (exp r) (secondAt w i)); try reflexivity; lia.
Qed.

Lemma expOf_le r w i : exp r <= secondAt w i -> expOf r <= secondAt w i.
Proof.
  intros H. apply Z.leb_le. rewrite expOf_leb. apply Z.leb_le, H.
Qed.

(** The sums the program makes of a second and one of its TTLs are exact. *)
Lemma jsAdd_second w i z :
  - 1000000 <= z <= 1000000 -> jsAdd (secondAt w i) z = secondAt w i + z.
Proof.
  intros Hz. pose proof (secondAt_range w i). unfold jsAdd. apply toNumber_exact.
  change (2 ^ 53) with 9007199254740992. lia.
Qed.

Lemma jsAdd_snapshot w z :
  - 1000000 <= z <= 1000000 -> jsAdd (snapshot w) z = snapshot w + z.
Proof. apply jsAdd_second. Qed.

(** ** Facts about ORDER BY ... LIMIT 1 *)

Section OrderBy.
Variable before : Row -> Row -> bool.
Hypothesis before_total : forall a b, before a b = false -> before b a = true.
Hypothesis before_trans :
  forall a b c, before a b = true -> before b c = true -> before a c = true.

Lemma head_insertBy r l :
  head (insertBy before r l) =
  Some (match head l with
        | None => r
        | Some y => if before r y then r else y
        end).
Proof using Type.
  destruct l as [|x xs]; simpl; [reflexivity|].
  destruct (before r x); reflexivity.
Qed.

Lemma orderBy_nil_inv l : orderBy before l = [] -> l = [].
Proof using Type.
  destruct l as [|x xs]; [reflexivity|].
  unfold orderBy; simpl. intros H.
  apply (f_equal head) in H. rewrite head_insertBy in H. discriminate.
Qed.

Lemma head_orderBy_FirstBest l r :
  head (orderBy before l) = Some r -> FirstBest before l r.
Proof using before_total before_trans.
  revert r. induction l as [|x xs IH]; intros r; [discriminate|].
  unfold orderBy; simpl. fold (orderBy before xs).
  rewrite head_insertBy.
  destruct (head (orderBy before xs)) as [y|] eqn:Hy.
  - destruct (IH y eq_refl) as (l1 & l2 & -> & H1 & H2).
    destruct (before x y) eqn:Hxy; intros [= <-].
    + exists [], (l1 ++ y :: l2). split; [reflexivity|]. split; [intros ? []|].
      intros z Hz. apply in_app_or in Hz as [Hz | [<- | Hz]].
      * apply before_trans with y; [assumption|]. apply before_total, H1, Hz.
      * assumption.
      * apply before_trans with y; [assumption|]. apply H2, Hz.
    + exists (x :: l1), l2. split; [reflexivity|]. split; [|assumption].
      intros z [<- | Hz]; [assumption | apply H1, Hz].
  - intros [= <-].
    assert (xs = []) as ->.
    { apply orderBy_nil_inv. destruct (orderBy before xs); [reflexivity | discriminate]. }
    exists [], []. split; [reflexivity|]. split; intros ? [].
Qed.

Lemma head_orderBy_None l : head (orderBy before l) = None <-> l = [].
Proof using Type.
  split.
  - intros H. apply orderBy_nil_inv. destruct (orderBy before l); [reflexivity | discriminate].
  - intros ->. reflexivity.
Qed.
End OrderBy.

Lemma filter_split (p : Row -> bool) rows l1 r l2 :
  List.filter p rows = l1 ++ r :: l2 ->
  exists k1 k2, rows = k1 ++ r :: k2 /\ List.filter p k1 = l1 /\ List.filter p k2 = l2 /\ p r = true.
Proof.
  revert l1. induction rows as [|x xs IH]; intros l1 H; simpl in H.
  - destruct l1; discriminate.
  - destruct (p x) eqn:Hx.
    + destruct l1 as [|y l1]; simpl in H; injection H as -> H.
      * exists [], xs. simpl. auto.
      * destruct (IH _ H) as (k1 & k2 & -> & <- & <- & Hr).
        exists (y :: k1), k2. simpl. rewrite Hx. auto.
    + destruct (IH _ H) as (k1 & k2 & -> & <- & <- & Hr).
      exists (x :: k1), k2. simpl. rewrite Hx. auto.
Qed.

Lemma filter_nil_iff (p : Row -> bool) rows :
  List.filter p rows = [] <-> forall x, In x rows -> p x = false.
Proof.
  induction rows as [|x xs IH]; simpl.
  - split; [intros _ ? [] | reflexivity].
  - destruct (p x) eqn:Hx; split.
    + discriminate.
    + intros H. specialize (H x (or_introl eq_refl)). congruence.
    + intros H y [<- | Hy]; [assumption | apply IH; assumption].
    + intros H. apply IH. intros y Hy. apply H. right. assumption.
Qed.

Lemma expAsc_total a b : expAsc a b = false -> expAsc b a = true.
Proof. unfold expAsc. lia. Qed.
Lemma expAsc_trans a b c : expAsc a b = true -> expAsc b c = true -> expAsc a c = true.
Proof. unfold expAsc. lia. Qed.
Lemma expDesc_total a b : expDesc a b = false -> expDesc b a = true.
Proof. unfold expDesc. lia. Qed.
Lemma expDesc_trans a b c : expDesc a b = true -> expDesc b c = true -> expDesc a c = true.
Proof. unfold expDesc. lia. Qed.

Lemma whereClause_qualifies wantExpired t r :
  whereClause wantExpired t r = true <-> qualifies wantExpired t r.
Proof. destruct wantExpired; unfold whereClause, qualifies, isExpiredAt, isActiveAt; lia. Qed.

Lemma sqlSelectOne_Some wantExpired t rows r :
  sqlSelectOne wantExpired t rows = Some r -> Selected wantExpired t rows r.
Proof.
  intros H.
  assert (exists l1 l2,
    List.filter (whereClause wantExpired t) rows = l1 ++ r :: l2 /\
    (forall x, In x l1 -> ~ preferred wantExpired (exp x) (exp r)) /\
    (forall x, In x l2 -> preferred wantExpired (exp r) (exp x)))
    as (l1 & l2 & Hf & H1 & H2).
  { destruct wantExpired; simpl in H |- *.
    - apply (head_orderBy_FirstBest expDesc expDesc_total expDesc_trans) in H.
      destruct H as (l1 & l2 & Hf & H1 & H2). exists l1, l2. split; [exact Hf|].
      split; intros x Hx; [specialize (H1 x Hx) | specialize (H2 x Hx)];
        unfold expDesc in *; lia.
    - apply (head_orderBy_FirstBest expAsc expAsc_total expAsc_trans) in H.
      destruct H as (l1 & l2 & Hf & H1 & H2). exists l1, l2. split; [exact Hf|].
      split; intros x Hx; [specialize (H1 x Hx) | specialize (H2 x Hx)];
        unfold expAsc in *; lia. }
  apply filter_split in Hf as (k1 & k2 & -> & <- & <- & Hr).
  exists k1, k2. split; [reflexivity|]. split; [apply whereClause_qualifies, Hr|].
  split; intros x Hx Hq; [apply H1 | apply H2];
    apply filter_In; (split; [assumption | apply whereClause_qualifies, Hq]).
Qed.

Lemma sqlSelectOne_None wantExpired t rows :
  sqlSelectOne wantExpired t rows = None <->
  forall x, In x rows -> ~ qualifies wantExpired t x.
Proof.
  assert (sqlSelectOne wantExpired t rows = None <->
          List.filter (whereClause wantExpired t) rows = []) as ->.
  { destruct wantExpired; simpl; apply head_orderBy_None. }
  rewrite filter_nil_iff. split; intros H x Hx.
  - rewrite <- whereClause_qualifies. rewrite (H x Hx). discriminate.
  - specialize (H x Hx). rewrite <- whereClause_qualifies in H.
    destruct (whereClause wantExpired t x); congruence.
Qed.

Lemma Selected_In wantExpired t rows r : Selected wantExpired t rows r -> In r rows.
Proof. intros (l1 & l2 & -> & _). apply in_or_app. right. left. reflexivity. Qed.

Lemma Selected_best wantExpired t rows r :
  Selected wantExpired t rows r ->
  forall x, In x rows -> qualifies wantExpired t x -> preferred wantExpired (exp r) (exp x).
Proof.
  intros (l1 & l2 & -> & Hq & H1 & H2) x Hx Hqx.
  apply in_app_or in Hx as [Hx | [<- | Hx]].
  - specialize (H1 x Hx Hqx). destruct wantExpired; simpl in *; lia.
  - destruct wantExpired; simpl; lia.
  - apply H2; assumption.
Qed.

(** The rule leaves no choice: two rows that both satisfy it are the same
    row of the table. *)
Lemma Selected_unique wantExpired t rows r r' :
  Selected wantExpired t rows r -> Selected wantExpired t rows r' -> r = r'.
Proof.
  intros (l1 & l2 & E & Hq & H1 & H2) (k1 & k2 & E' & Hq' & K1 & K2).
  rewrite E in E'. apply app_eq_app in E' as [m [[-> Em] | [-> Em]]].
  - destruct m as [|y m]; simpl in Em.
    + congruence.
    + injection Em as <- ->.
      exfalso. apply (H1 r'); [apply in_or_app; right; left; reflexivity | assumption |].
      apply K2; [apply in_or_app; right; left; reflexivity | assumption].
  - destruct m as [|y m]; simpl in Em.
    + congruence.
    + injection Em as <- ->.
      exfalso. apply (K1 r); [apply in_or_app; right; left; reflexivity | assumption |].
      apply H2; [apply in_or_app; right; left; reflexivity | assumption].
Qed.

(** ** Running the data access functions *)

Lemma nowSec_run w : nowSec w = (snapshot w, tick w).
Proof. reflexivity. Qed.

Lemma selectOneKey_run wantExpired w :
  selectOneKey wantExpired w = (sqlSelectOne wantExpired (snapshot w) (keys (db w)), tick w).
Proof. destruct wantExpired; reflexivity. Qed.

Lemma selectAllValidKeys_run w :
  selectAllValidKeys w = (sqlAllValid (snapshot w) (keys (db w)), tick w).
Proof. reflexivity. Qed.

Lemma hasActiveKey_run w :
  hasActiveKey w = (sqlHasActive (snapshot w) (keys (db w)), tick w).
Proof. reflexivity. Qed.

Lemma hasExpiredKey_run w :
  hasExpiredKey w = (sqlHasExpired (snapshot w) (keys (db w)), tick w).
Proof. reflexivity. Qed.

Lemma countKeys_run w : countKeys w = (Z.of_nat (length (keys (db w))), w).
Proof. reflexivity. Qed.

Lemma tableFull_Room d : tableFull d = false <-> Room 1 d.
Proof. unfold tableFull, Room, lastRowid. rewrite Z.leb_gt. lia. Qed.

Lemma Room_le n m d : m <= n -> Room n d -> Room m d.
Proof. unfold Room. lia. Qed.

Lemma Room_not_full n d : 1 <= n -> Room n d -> tableFull d = false.
Proof. intros Hn H. apply tableFull_Room. exact (Room_le _ _ _ Hn H). Qed.

Lemma maxRowid_nonneg rows : 0 <= maxRowid rows.
Proof. induction rows as [|x xs IH]; simpl; lia. Qed.

Lemma maxRowid_app l1 l2 : maxRowid (l1 ++ l2) = Z.max (maxRowid l1) (maxRowid l2).
Proof.
  induction l1 as [|x xs IH].
  - pose proof (maxRowid_nonneg l2). change (maxRowid ([] ++ l2)) with (maxRowid l2).
    change (maxRowid []) with 0. lia.
  - change (maxRowid ((x :: xs) ++ l2)) with (Z.max (kid x) (maxRowid (xs ++ l2))).
    change (maxRowid (x :: xs)) with (Z.max (kid x) (maxRowid xs)).
    rewrite IH. lia.
Qed.

Lemma Room_stored n ttl w : Room n (db w) -> Room (n - 1) (db (stored ttl w)).
Proof.
  unfold Room, stored, nextRowid. cbn [db keys sqlite_sequence].
  rewrite maxRowid_app. pose proof (maxRowid_nonneg (keys (db w))).
  set (m := maxRowid (keys (db w))) in *.
  cbn [maxRowid foldr kid]. lia.
Qed.

Lemma Room_tick n w : Room n (db (tick w)) <-> Room n (db w).
Proof. reflexivity. Qed.

Lemma generated_room ttl w : tableFull (db w) = false -> generated ttl w = stored ttl w.
Proof. intros H. unfold generated. rewrite H. reflexivity. Qed.

Lemma Room_generated n ttl w : Room n (db w) -> Room (n - 1) (db (generated ttl w)).
Proof.
  intros H. unfold generated. destruct (tableFull (db w)).
  - apply (Room_le n); [lia | exact H].
  - apply Room_stored, H.
Qed.

Lemma generateAndStoreRsaKey_run ttlSeconds w :
  generateAndStoreRsaKey ttlSeconds w =
  (if tableFull (db w) then Thrown SQLITE_FULL
   else Returned (toNumber (nextRowid (db w)), jsAdd (snapshot w) (Qfloor ttlSeconds)),
   generated ttlSeconds w).
Proof.
  unfold generateAndStoreRsaKey, generated, tryBind, insertKey, mbind, M_bind.
  unfold generateKeyPair. rewrite nowSec_run. cbn [tick db].
  destruct (tableFull (db w)); reflexivity.
Qed.

Lemma sqlHasActive_true t rows :
  sqlHasActive t rows = true <-> exists r, In r rows /\ t < exp r.
Proof.
  unfold sqlHasActive. rewrite existsb_exists. unfold isActiveAt.
  split; intros (r & Hr & H); exists r; (split; [assumption | lia]).
Qed.

Lemma sqlHasExpired_true t rows :
  sqlHasExpired t rows = true <-> exists r, In r rows /\ exp r <= t.
Proof.
  unfold sqlHasExpired. rewrite existsb_exists. unfold isExpiredAt.
  split; intros (r & Hr & H); exists r; (split; [assumption | lia]).
Qed.

Lemma ensureActiveKeyPresent_run w :
  ensureActiveKeyPresent w =
  (if activeThrows w then Thrown SQLITE_FULL else Returned tt,
   if sqlHasActive (snapshot w) (keys (db w)) then tick w
   else generated (inject_Z (60 * 60)) (tick w)).
Proof.
  unfold ensureActiveKeyPresent, activeThrows, tryBind, mbind, M_bind.
  rewrite hasActiveKey_run.
  destruct (sqlHasActive _ _); [reflexivity|]. cbn [negb andb].
  rewrite generateAndStoreRsaKey_run. change (db (tick w)) with (db w).
  destruct (tableFull (db w)); reflexivity.
Qed.

Lemma ensureExpiredKeyPresent_run w :
  ensureExpiredKeyPresent w =
  (if expiredThrows w then Thrown SQLITE_FULL else Returned tt,
   if sqlHasExpired (snapshot w) (keys (db w)) then tick w
   else generated (inject_Z (-60)) (tick w)).
Proof.
  unfold ensureExpiredKeyPresent, expiredThrows, tryBind, mbind, M_bind.
  rewrite hasExpiredKey_run.
  destruct (sqlHasExpired _ _); [reflexivity|]. cbn [negb andb].
  rewrite generateAndStoreRsaKey_run. change (db (tick w)) with (db w).
  destruct (tableFull (db w)); reflexivity.
Qed.

(** ** Selection (C1, C7) *)

(** C1. [selectOneKey] reads the clock once; with [now] the second it
    read, the active query returns the row with the smallest [exp] among
    those with [exp > now] and nothing when there is none, the expired
    query returns the row with the largest [exp] among those with
    [exp <= now] and nothing when there is none; a row with [exp = now]
    is never returned as active and makes the expired query succeed. *)
Theorem selectOneKey_soonest_active_latest_expired (w : World) :
  let now := snapshot w in
  let rows := keys (db w) in
  match result (selectOneKey false) w with
  | Some r =>
      In r rows /\ now < exp r /\
      (forall x, In x rows -> now < exp x -> exp r <= exp x)
  | None => forall x, In x rows -> exp x <= now
  end /\
  match result (selectOneKey true) w with
  | Some r =>
      In r rows /\ exp r <= now /\
      (forall x, In x rows -> exp x <= now -> exp x <= exp r)
  | None => forall x, In x rows -> now < exp x
  end /\
  (forall x, In x rows -> exp x = now ->
     result (selectOneKey false) w <> Some x /\
     exists r, result (selectOneKey true) w = Some r /\ exp r = now).
Proof.
  intros now rows. unfold result. rewrite !selectOneKey_run. cbn [fst].
  fold now rows.
  assert (Hact : match sqlSelectOne false now rows with
                 | Some r => In r rows /\ now < exp r /\
                     (forall x, In x rows -> now < exp x -> exp r <= exp x)
                 | None => forall x, In x rows -> exp x <= now
                 end).
  { destruct (sqlSelectOne false now rows) as [r|] eqn:E.
    - apply sqlSelectOne_Some in E.
      split; [eapply Selected_In; eassumption|].
      split; [destruct E as (? & ? & _ & Hq & _); exact Hq|].
      intros x Hx Hq. exact (Selected_best _ _ _ _ E x Hx Hq).
    - intros x Hx. apply sqlSelectOne_None with (x := x) in E; [|assumption].
      simpl in E. lia. }
  assert (Hexp : match sqlSelectOne true now rows with
                 | Some r => In r rows /\ exp r <= now /\
                     (forall x, In x rows -> exp x <= now -> exp x <= exp r)
                 | None => forall x, In x rows -> now < exp x
                 end).
  { destruct (sqlSelectOne true now rows) as [r|] eqn:E.
    - apply sqlSelectOne_Some in E.
      split; [eapply Selected_In; eassumption|].
      split; [destruct E as (? & ? & _ & Hq & _); exact Hq|].
      intros x Hx Hq. exact (Selected_best _ _ _ _ E x Hx Hq).
    - intros x Hx. apply sqlSelectOne_None with (x := x) in E; [|assumption].
      simpl in E. lia. }
  split; [exact Hact|]. split; [exact Hexp|].
  intros x Hx Hnow. split.
  - intros E. rewrite E in Hact. lia.
  - destruct (sqlSelectOne true now rows) as [r|].
    + exists r. split; [reflexivity|].
      destruct Hexp as (_ & Hle & Hmax). specialize (Hmax x Hx). lia.
    + specialize (Hexp x Hx). lia.
Qed.

Lemma selectOneKey_Selected wantExpired w r :
  result (selectOneKey wantExpired) w = Some r <->
  Selected wantExpired (snapshot w) (keys (db w)) r.
Proof.
  unfold result. rewrite selectOneKey_run. cbn [fst]. split.
  - apply sqlSelectOne_Some.
  - intros H. destruct (sqlSelectOne wantExpired (snapshot w) (keys (db w))) as [r'|] eqn:E.
    + f_equal. apply sqlSelectOne_Some in E. eapply Selected_unique; eassumption.
    + exfalso. apply (proj1 (sqlSelectOne_None _ _ _) E r).
      * eapply Selected_In; eassumption.
      * destruct H as (? & ? & _ & Hq & _). exact Hq.
Qed.

(** C7. Two evaluations of [selectOneKey] with the same flag, on the same
    rows and with the same second read from the clock, return the same
    row, however many rows qualify. The row returned is the one fixed by
    the rule [Selected]: best expiration (soonest for active, latest for
    expired) and, among qualifying rows that share it, lowest rowid.
    The evaluation itself leaves the database as it was. *)
Theorem selectOneKey_deterministic (wantExpired : bool) (w1 w2 : World) :
  keys (db w1) = keys (db w2) ->
  snapshot w1 = snapshot w2 ->
  result (selectOneKey wantExpired) w1 = result (selectOneKey wantExpired) w2 /\
  (forall r, result (selectOneKey wantExpired) w1 = Some r <->
             Selected wantExpired (snapshot w1) (keys (db w1)) r) /\
  db (after (selectOneKey wantExpired) w1) = db w1.
Proof.
  intros Hrows Hnow. split; [|split].
  - unfold result. rewrite !selectOneKey_run. cbn [fst]. rewrite Hrows, Hnow. reflexivity.
  - intros r. apply selectOneKey_Selected.
  - unfold after. rewrite selectOneKey_run. reflexivity.
Qed.

Lemma selectOneKey_deterministic_witness :
  let w1 := worldAt 1700000000123 duplicatedDb in
  let w2 := {| db := duplicatedDb; clock := fun i => 1700000000000 + Z.of_nat i;
               ticks := 7; keypairs := 3 |} in
  result (selectOneKey false) w1 = result (selectOneKey false) w2 /\
  (forall r, result (selectOneKey false) w1 = Some r <->
             Selected false (snapshot w1) (keys (db w1)) r) /\
  db (after (selectOneKey false) w1) = db w1.
Proof.
  intros w1 w2. apply (selectOneKey_deterministic false w1 w2); reflexivity.
Defined.

Example selectOneKey_duplicated_active :
  result (selectOneKey false) (worldAt 1700000000123 duplicatedDb)
  = Some (mkRow 2 (RsaPrivateKey 1) 1700003600).
Proof. reflexivity. Qed.

(** ** Key generation (C4) *)

Lemma div1000_bounds (ms : Z) : 1000 * (ms / 1000) <= ms < 1000 * (ms / 1000) + 1000.
Proof.
  pose proof (Z.div_mod ms 1000 ltac:(lia)).
  pose proof (Z.mod_pos_bound ms 1000 ltac:(lia)). lia.
Qed.

(** C4 as stated fails for a large [ttl]: the sum is made on numbers, and
    at a TTL of 2^60 seconds the stored expiration is 100 seconds off. *)
Lemma expiration_inexact_for_large_ttl :
  ~ (forall (ttl : Z) (w : World) (newKid newExp : Z),
       result (generateAndStoreRsaKey (inject_Z ttl)) w = Returned (newKid, newExp) ->
       let ms := timeValue (clock w (ticks w)) in
       ms + 1000 * ttl - 1000 < 1000 * newExp <= ms + 1000 * ttl).
Proof.
  intros H.
  assert (E : result (generateAndStoreRsaKey (inject_Z (2 ^ 60)))
                (worldAt 1700000100000 emptyDb)
              = Returned (1, 1152921506306846976)) by (vm_compute; reflexivity).
  specialize (H _ _ _ _ E). vm_compute in H. destruct H as [H _]. discriminate H.
Qed.

(** C4, amended. For an integer [ttl], and unless the table is full,
    [generateAndStoreRsaKey] appends one row, under the next rowid, whose
    [exp] is the sum as a number of the second [now] read from the clock
    and [ttl], and returns that [exp] and the rowid as a number. Whenever
    [now + ttl] is below 2^53 in absolute value the sum is exact:
    [exp = now + ttl], less than one second off [ms + 1000 * ttl] for the
    creation instant [ms] in milliseconds. A negative [ttl], however
    large, gives a result, not an error, and an expiration strictly
    before the creation instant. The one error is that of a full table,
    whatever the [ttl]: the insert throws and no row is stored. *)
Theorem generateAndStoreRsaKey_expiration (ttl : Z) (w : World) :
  let ms := timeValue (clock w (ticks w)) in
  let now := ms / 1000 in
  let out := generateAndStoreRsaKey (inject_Z ttl) w in
  (tableFull (db w) = false ->
   exists newKid newExp,
     fst out = Returned (newKid, newExp) /\
     keys (db (snd out)) =
       keys (db w) ++ [mkRow (nextRowid (db w)) (RsaPrivateKey (keypairs w)) newExp] /\
     newKid = toNumber (nextRowid (db w)) /\
     newExp = toNumber (now + ttl) /\
     (Z.abs (now + ttl) < 2 ^ 53 ->
      newExp = now + ttl /\
      ms + 1000 * ttl - 1000 < 1000 * newExp <= ms + 1000 * ttl) /\
     (ttl < 0 -> 1000 * newExp < ms)) /\
  (tableFull (db w) = true ->
   fst out = Thrown SQLITE_FULL /\ db (snd out) = db w).
Proof.
  intros ms now out. subst out.
  rewrite generateAndStoreRsaKey_run. unfold generated. cbn [fst snd].
  split; intros Hfull; rewrite Hfull; [|split; reflexivity].
  eexists _, _. split; [reflexivity|]. cbn [stored db keys].
  rewrite Qfloor_Z. unfold jsAdd.
  change (snapshot w) with now.
  pose proof (div1000_bounds ms) as Hdiv. fold now in Hdiv.
  split; [reflexivity|]. split; [reflexivity|]. split; [reflexivity|]. split.
  - intros Hsafe. rewrite (toNumber_exact _ Hsafe). lia.
  - intros Hneg.
    destruct (Z.lt_ge_cases (Z.abs (now + ttl)) (2 ^ 53)) as [Hsafe | Hbig].
    + rewrite (toNumber_exact _ Hsafe). lia.
    + pose proof (secondAt_range w (ticks w)) as Hr.
      change (secondAt w (ticks w)) with now in Hr.
      assert (Hlow : now + ttl <= - 2 ^ 53).
      { change (2 ^ 53) with 9007199254740992 in *. lia. }
      pose proof (toNumber_far_below _ Hlow) as Hfar.
      change (2 ^ 53) with 9007199254740992 in *. lia.
Qed.

Lemma generateAndStoreRsaKey_expiration_witness :
  let w := worldAt 1700000000999 emptyDb in
  let out := generateAndStoreRsaKey (inject_Z (-5 * 60)) w in
  exists newKid newExp,
    fst out = Returned (newKid, newExp) /\
    keys (db (snd out)) = [mkRow 1 (RsaPrivateKey 0) newExp] /\
    newExp = 1700000000 + -5 * 60 /\
    1000 * newExp < 1700000000999.
Proof.
  intros w out.
  destruct (proj1 (generateAndStoreRsaKey_expiration (-5 * 60) w) eq_refl)
    as (newKid & newExp & Hout & Hkeys & _ & _ & Hexact & Hneg).
  exists newKid, newExp. split; [exact Hout|]. split; [exact Hkeys|].
  split; [apply Hexact; reflexivity | apply Hneg; reflexivity].
Defined.

(** On a full table the insert throws, whatever the TTL. *)
Example generateAndStoreRsaKey_full :
  result (generateAndStoreRsaKey (inject_Z 3600)) fullAndEmpty = Thrown SQLITE_FULL /\
  db (after (generateAndStoreRsaKey (inject_Z 3600)) fullAndEmpty) = db fullAndEmpty.
Proof. split; reflexivity. Qed.

(** ** Ensure-present policies (C5) *)

(** C5. [ensureActiveKeyPresent] inserts nothing and leaves the database
    unchanged when some row has [exp] greater than the second it reads;
    [ensureExpiredKeyPresent] likewise when some row has [exp] at most
    that second. Called twice in a row while some row stays active, the
    count does not change; and in any state two calls in a row change the
    count at most once, as long as the second call reads the clock less
    than the hour of the TTL after the first one generated its key. *)
Theorem ensure_present_idempotent :
  (forall w, (exists r, In r (keys (db w)) /\ snapshot w < exp r) ->
     db (after ensureActiveKeyPresent w) = db w /\
     count (after ensureActiveKeyPresent w) = count w) /\
  (forall w, (exists r, In r (keys (db w)) /\ exp r <= snapshot w) ->
     db (after ensureExpiredKeyPresent w) = db w /\
     count (after ensureExpiredKeyPresent w) = count w) /\
  (forall w,
     let w1 := after ensureActiveKeyPresent w in
     let w2 := after ensureActiveKeyPresent w1 in
     (exists r, In r (keys (db w)) /\ snapshot w < exp r /\ snapshot w1 < exp r) ->
     db w2 = db w /\ count w2 = count w) /\
  (forall w,
     let w1 := after ensureActiveKeyPresent w in
     let w2 := after ensureActiveKeyPresent w1 in
     snapshot w1 < secondAt w (S (ticks w)) + 60 * 60 ->
     (count w1 = count w /\ (count w2 = count w1 \/ count w2 = count w1 + 1)) \/
     (count w1 = count w + 1 /\ count w2 = count w1)).
Proof.
  assert (A : forall w, (exists r, In r (keys (db w)) /\ snapshot w < exp r) ->
     db (after ensureActiveKeyPresent w) = db w /\
     count (after ensureActiveKeyPresent w) = count w).
  { intros w H. apply sqlHasActive_true in H.
    unfold count, result, after. rewrite ensureActiveKeyPresent_run, H.
    split; reflexivity. }
  split; [exact A|]. split; [|split].
  - intros w H. apply sqlHasExpired_true in H.
    unfold count, result, after. rewrite ensureExpiredKeyPresent_run, H.
    split; reflexivity.
  - intros w w1 w2 (r & Hin & H1 & H2).
    destruct (A w) as [E1 C1]; [exists r; auto|].
    destruct (A w1) as [E2 C2]; [exists r; subst w1; rewrite E1; auto|].
    subst w2. fold w1 in E1, C1. split; congruence.
  - intros w w1 w2 Hsoon. subst w2 w1. revert Hsoon.
    unfold count, result, after. rewrite (ensureActiveKeyPresent_run w).
    destruct (sqlHasActive (snapshot w) (keys (db w))) eqn:H1; cbn [snd]; intros Hsoon.
    + left. split; [reflexivity|].
      rewrite ensureActiveKeyPresent_run.
      destruct (sqlHasActive (snapshot (tick w)) _); cbn [snd];
        rewrite !countKeys_run; cbn [fst]; [left; reflexivity|].
      unfold generated. destruct (tableFull _); [left; reflexivity | right].
      cbn [stored db keys tick]. rewrite length_app. simpl. lia.
    + unfold generated in *. change (db (tick w)) with (db w) in *.
      destruct (tableFull (db w)) eqn:F.
      * left. split; [reflexivity|]. rewrite ensureActiveKeyPresent_run. cbn [snd].
        destruct (sqlHasActive (snapshot (spent (tick w))) _); cbn [snd];
          rewrite !countKeys_run; cbn [fst]; [left; reflexivity|].
        unfold generated. change (db (tick (spent (tick w)))) with (db w). rewrite F.
        left. reflexivity.
      * right. rewrite ensureActiveKeyPresent_run.
        assert (H2 : sqlHasActive (snapshot (stored (inject_Z (60 * 60)) (tick w)))
                       (keys (db (stored (inject_Z (60 * 60)) (tick w)))) = true).
        { apply sqlHasActive_true. eexists. split.
          - cbn [stored db keys]. apply in_or_app. right. left. reflexivity.
          - cbn [exp]. rewrite Qfloor_Z, jsAdd_snapshot by lia. exact Hsoon. }
        rewrite H2. cbn [snd]. rewrite !countKeys_run. cbn [fst].
        cbn [stored db keys tick]. rewrite length_app. simpl. lia.
Qed.

Example seeded_keys :
  keys (db seeded) = [ mkRow 1 (RsaPrivateKey 0) 1700003600;
                       mkRow 2 (RsaPrivateKey 1) 1699999700 ].
Proof. reflexivity. Qed.

Lemma ensure_present_idempotent_witness :
  (db (after ensureActiveKeyPresent seeded) = db seeded /\
   count (after ensureActiveKeyPresent seeded) = count seeded) /\
  (db (after ensureExpiredKeyPresent seeded) = db seeded /\
   count (after ensureExpiredKeyPresent seeded) = count seeded) /\
  (let w := worldAt 1700000000000 emptyDb in
   let w1 := after ensureActiveKeyPresent w in
   let w2 := after ensureActiveKeyPresent w1 in
   (count w1 = count w /\ (count w2 = count w1 \/ count w2 = count w1 + 1)) \/
   (count w1 = count w + 1 /\ count w2 = count w1)).
Proof.
  destruct ensure_present_idempotent as (A & E & _ & T).
  split; [|split].
  - apply (A seeded). exists (mkRow 1 (RsaPrivateKey 0) 1700003600).
    split; [left; reflexivity | reflexivity].
  - apply (E seeded). exists (mkRow 2 (RsaPrivateKey 1) 1699999700).
    split; [right; left; reflexivity | discriminate].
  - apply (T (worldAt 1700000000000 emptyDb)). reflexivity.
Defined.

(** ** The key table is append-only (C9) *)

Lemma after_bind {A B} (m : M A) (f : A -> M B) w :
  after (m ≫= f) w = after (f (result m w)) (after m w).
Proof. unfold after, result, mbind, M_bind. destruct (m w). reflexivity. Qed.

Lemma ReadOnly_AppendOnly {A} (m : M A) : ReadOnly m -> AppendOnly m.
Proof. intros H w. rewrite H. reflexivity. Qed.

Lemma AppendOnly_ret {A} (a : A) : AppendOnly (mret a).
Proof. intros w. reflexivity. Qed.

Lemma AppendOnly_bind {A B} (m : M A) (f : A -> M B) :
  AppendOnly m -> (forall a, AppendOnly (f a)) -> AppendOnly (m ≫= f).
Proof.
  intros Hm Hf w. rewrite after_bind.
  etransitivity; [apply Hm | apply Hf].
Qed.

Lemma ReadOnly_ret {A} (a : A) : ReadOnly (mret a).
Proof. intros w. reflexivity. Qed.

Lemma ReadOnly_bind {A B} (m : M A) (f : A -> M B) :
  ReadOnly m -> (forall a, ReadOnly (f a)) -> ReadOnly (m ≫= f).
Proof. intros Hm Hf w. rewrite after_bind, Hf, Hm. reflexivity. Qed.

Lemma ReadOnly_nowSec : ReadOnly nowSec.
Proof. intros w. reflexivity. Qed.

Lemma ReadOnly_dbGet {A} (f : list Row -> A) : ReadOnly (dbGet f).
Proof. intros w. reflexivity. Qed.

Lemma ReadOnly_generateKeyPair : ReadOnly generateKeyPair.
Proof. intros w. reflexivity. Qed.

Lemma AppendOnly_insertKey pem e : AppendOnly (insertKey pem e).
Proof.
  intros w. unfold after, insertKey. destruct (tableFull (db w)); cbn [snd].
  - reflexivity.
  - apply prefix_app_r. reflexivity.
Qed.

Lemma AppendOnly_tryBind {A B} (m : M (Try A)) (k : A -> M (Try B)) :
  AppendOnly m -> (forall a, AppendOnly (k a)) -> AppendOnly (tryBind m k).
Proof.
  intros Hm Hk. apply AppendOnly_bind; [exact Hm|].
  intros [a | message]; [apply Hk | apply AppendOnly_ret].
Qed.

Lemma AppendOnly_tryCatch {A} (body : M (Try A)) (handler : string -> M A) :
  AppendOnly body -> (forall message, AppendOnly (handler message)) ->
  AppendOnly (tryCatch body handler).
Proof.
  intros Hb Hh. apply AppendOnly_bind; [exact Hb|].
  intros [a | message]; [apply AppendOnly_ret | apply Hh].
Qed.

Create HintDb store discriminated.
#[local] Hint Resolve ReadOnly_ret ReadOnly_nowSec ReadOnly_dbGet ReadOnly_generateKeyPair
  AppendOnly_ret AppendOnly_insertKey : store.
#[local] Hint Extern 2 (ReadOnly (_ ≫= _)) => apply ReadOnly_bind; [|intros ?] : store.
#[local] Hint Extern 2 (AppendOnly (_ ≫= _)) => apply AppendOnly_bind; [|intros ?] : store.
#[local] Hint Extern 2 (AppendOnly (tryBind _ _)) => apply AppendOnly_tryBind; [|intros ?] : store.
#[local] Hint Extern 2 (AppendOnly (tryCatch _ _)) =>
  apply AppendOnly_tryCatch; [|intros ?] : store.
#[local] Hint Extern 3 (ReadOnly (if ?b then _ else _)) => destruct b : store.
#[local] Hint Extern 3 (AppendOnly (if ?b then _ else _)) => destruct b : store.
#[local] Hint Extern 3 (AppendOnly (match ?x with [] => _ | _ :: _ => _ end)) => destruct x : store.
#[local] Hint Extern 3 (AppendOnly (match ?x with Some _ => _ | None => _ end)) => destruct x : store.
#[local] Hint Extern 9 (AppendOnly _) => apply ReadOnly_AppendOnly : store.

Lemma ReadOnly_selectOneKey wantExpired : ReadOnly (selectOneKey wantExpired).
Proof. unfold selectOneKey. auto with store. Qed.
Lemma ReadOnly_selectAllValidKeys : ReadOnly selectAllValidKeys.
Proof. unfold selectAllValidKeys. auto with store. Qed.
Lemma ReadOnly_hasActiveKey : ReadOnly hasActiveKey.
Proof. unfold hasActiveKey. auto with store. Qed.
Lemma ReadOnly_hasExpiredKey : ReadOnly hasExpiredKey.
Proof. unfold hasExpiredKey. auto with store. Qed.
Lemma ReadOnly_countKeys : ReadOnly countKeys.
Proof. unfold countKeys. auto with store. Qed.
Lemma ReadOnly_kidLabelForRow r : ReadOnly (kidLabelForRow r).
Proof. unfold kidLabelForRow, isExpiredRow. auto with store. Qed.

#[local] Hint Resolve ReadOnly_selectOneKey ReadOnly_selectAllValidKeys ReadOnly_hasActiveKey
  ReadOnly_hasExpiredKey ReadOnly_countKeys ReadOnly_kidLabelForRow : store.

Lemma AppendOnly_generateAndStoreRsaKey ttl : AppendOnly (generateAndStoreRsaKey ttl).
Proof. unfold generateAndStoreRsaKey. auto 10 with store. Qed.
#[local] Hint Resolve AppendOnly_generateAndStoreRsaKey : store.

Lemma AppendOnly_ensureSeedKeys : AppendOnly ensureSeedKeys.
Proof. unfold ensureSeedKeys. auto 10 with store. Qed.
Lemma AppendOnly_ensureActiveKeyPresent : AppendOnly ensureActiveKeyPresent.
Proof. unfold ensureActiveKeyPresent. auto 10 with store. Qed.
Lemma AppendOnly_ensureExpiredKeyPresent : AppendOnly ensureExpiredKeyPresent.
Proof. unfold ensureExpiredKeyPresent. auto 10 with store. Qed.
#[local] Hint Resolve AppendOnly_ensureSeedKeys AppendOnly_ensureActiveKeyPresent
  AppendOnly_ensureExpiredKeyPresent : store.

Lemma AppendOnly_jwksHandler req res : AppendOnly (jwksHandler req res).
Proof. unfold jwksHandler. auto 12 with store. Qed.

Lemma AppendOnly_authHandler req res : AppendOnly (authHandler req res).
Proof. unfold authHandler. auto 12 with store. Qed.

Lemma AppendOnly_dispatch layers :
  Forall AppendOnlyLayer layers -> forall req res, AppendOnly (dispatch layers req res).
Proof.
  induction 1 as [|mw rest Hmw _ IH]; intros req res; simpl.
  - apply AppendOnly_ret.
  - apply AppendOnly_bind; [apply Hmw|].
    intros [r | r]; [apply AppendOnly_ret | apply IH].
Qed.

Lemma AppendOnly_stack : Forall AppendOnlyLayer stack.
Proof.
  pose proof AppendOnly_jwksHandler. pose proof AppendOnly_authHandler.
  unfold stack.
  repeat (apply Forall_cons_2 || apply Forall_nil_2); intros req res;
    unfold expressJson, cors, all, methodGuard, get, post, use, notFound;
    destruct (bodyParse req); auto 10 with store.
Qed.

(** C9. No operation changes or removes a stored row: the queries leave
    the database as it is; [insertKey], key generation, the seeding and
    ensure-present policies, both route handlers and the whole
    application only ever add rows after the existing ones. *)
Theorem key_table_append_only :
  (forall pem e, AppendOnly (insertKey pem e)) /\
  (forall wantExpired, ReadOnly (selectOneKey wantExpired)) /\
  ReadOnly selectAllValidKeys /\
  ReadOnly hasActiveKey /\
  ReadOnly hasExpiredKey /\
  ReadOnly countKeys /\
  (forall ttlSeconds, AppendOnly (generateAndStoreRsaKey ttlSeconds)) /\
  AppendOnly ensureSeedKeys /\
  AppendOnly ensureActiveKeyPresent /\
  AppendOnly ensureExpiredKeyPresent /\
  (forall req res, AppendOnly (jwksHandler req res)) /\
  (forall req res, AppendOnly (authHandler req res)) /\
  (forall req, AppendOnly (app req)).
Proof.
  repeat split; auto using AppendOnly_jwksHandler, AppendOnly_authHandler with store.
  intros req. apply AppendOnly_dispatch, AppendOnly_stack.
Qed.

(** What append-only means for one stored row: it is still found at the
    same place, with the same [kid], [key] and [exp]. *)
Lemma AppendOnly_lookup {A} (m : M A) :
  AppendOnly m ->
  forall w (i : nat) (r : Row),
    keys (db w) !! i = Some r -> keys (db (after m w)) !! i = Some r.
Proof.
  intros H w i r Hi. destruct (H w) as [new ->].
  apply lookup_app_l_Some. exact Hi.
Qed.

(** ** The middleware stack (C8, C10) *)

Lemma app_rejected req w e :
  bodyParse req = BodyRejected e ->
  app req w = (errorPage req (errorStatus e) freshResponse, w).
Proof.
  intros H. unfold app, stack, dispatch, expressJson, mbind, M_bind, mret, M_ret.
  rewrite H. reflexivity.
Qed.

Lemma app_options req w :
  bodyParse req = BodyAccepted -> method req = "OPTIONS" ->
  app req w = (sendStatus 204 corsResponse, w).
Proof.
  intros Hb H. unfold app, stack, dispatch, expressJson, cors, mbind, M_bind, mret, M_ret.
  rewrite Hb. cbv beta iota. rewrite bool_decide_eq_true_2 by exact H. reflexivity.
Qed.

Lemma app_past_cors req w :
  bodyParse req = BodyAccepted -> method req <> "OPTIONS" ->
  app req w = dispatch (tail (tail stack)) req corsResponse w.
Proof.
  intros Hb H. unfold app, stack. cbn [dispatch tail].
  unfold expressJson, cors, mbind, M_bind, mret, M_ret.
  rewrite Hb. cbv beta iota. rewrite bool_decide_eq_false_2 by exact H. reflexivity.
Qed.

(** The three routes do not overlap. *)
Lemma route_auth_not_jwks p :
  pathMatches "/auth" p = true ->
  pathMatches "/jwks" p = false /\ pathMatches "/.well-known/jwks.json" p = false.
Proof.
  unfold pathMatches. generalize (toLowerCase p) as q. intros q H.
  apply orb_true_iff in H as [H | H]; apply bool_decide_eq_true_1 in H; subst q;
    split; reflexivity.
Qed.

Lemma route_jwks_not_auth p :
  isJwksPath p = true -> pathMatches "/auth" p = false.
Proof.
  intros H. destruct (pathMatches "/auth" p) eqn:E; [|reflexivity].
  apply route_auth_not_jwks in E as [E1 E2]. unfold isJwksPath in H.
  rewrite E1, E2 in H. discriminate.
Qed.

Lemma methodGuard_reject allowed allowHeader req res w :
  method req ∉ allowed ->
  methodGuard allowed allowHeader req res w =
  (Sent (json req (JsonError "not allowed")
           (setStatus 405 (setHeader "Allow" allowHeader res))), w).
Proof.
  intros H. unfold methodGuard. rewrite bool_decide_eq_false_2 by exact H. reflexivity.
Qed.

Lemma methodGuard_pass allowed allowHeader req res w :
  method req ∈ allowed -> methodGuard allowed allowHeader req res w = (Next res, w).
Proof.
  intros H. unfold methodGuard. rewrite bool_decide_eq_true_2 by exact H. reflexivity.
Qed.

Lemma app_jwks_wrong_method req w :
  bodyParse req = BodyAccepted ->
  method req <> "OPTIONS" -> method req <> "GET" -> isJwksPath (path req) = true ->
  app req w = (notAllowed req "GET", w).
Proof.
  intros Hb Hopt Hget Hpath. rewrite app_past_cors by assumption.
  assert (Hno : method req ∉ ["GET"]) by (rewrite list_elem_of_singleton; exact Hget).
  unfold stack. cbn [dispatch tail]. unfold all, mbind, M_bind, mret, M_ret.
  unfold isJwksPath in Hpath.
  destruct (pathMatches "/jwks" (path req)).
  - rewrite methodGuard_reject by exact Hno. reflexivity.
  - simpl in Hpath. rewrite Hpath. cbv beta iota.
    rewrite methodGuard_reject by exact Hno. reflexivity.
Qed.

Lemma app_auth_wrong_method req w :
  bodyParse req = BodyAccepted ->
  method req <> "OPTIONS" -> method req <> "POST" -> pathMatches "/auth" (path req) = true ->
  app req w = (notAllowed req "POST", w).
Proof.
  intros Hb Hopt Hpost Hpath. rewrite app_past_cors by assumption.
  assert (Hno : method req ∉ ["POST"]) by (rewrite list_elem_of_singleton; exact Hpost).
  destruct (route_auth_not_jwks _ Hpath) as [E1 E2].
  unfold stack. cbn [dispatch tail]. unfold all, mbind, M_bind, mret, M_ret.
  rewrite E1, E2, Hpath. cbv beta iota.
  rewrite methodGuard_reject by exact Hno. reflexivity.
Qed.

(** C10 as stated fails for an OPTIONS request with a body that
    [express.json()], registered before the CORS middleware, rejects. *)
Lemma options_with_malformed_body_is_400 :
  ~ (forall req w, method req = "OPTIONS" -> status (result (app req) w) = 204).
Proof.
  intros H.
  specialize (H {| method := "OPTIONS"; path := "/auth"; query := ∅;
                   bodyParse := BodyRejected Malformed; fresh := stale |} seeded eq_refl).
  vm_compute in H. discriminate H.
Qed.

(** C10, amended. A request with method OPTIONS whose body the JSON body
    parser accepts (any request without a body is one) is answered 204
    with no body on every path, by the CORS middleware: the 405 guard is
    never reached, no [Allow] header is set and the world is left as it
    was. When the parser rejects the body, the answer is its error page
    with its status code, without the CORS headers; that is not the 405
    of the guard either. *)
Theorem options_always_204 (req : Request) (w : World) :
  method req = "OPTIONS" ->
  let resp := result (app req) w in
  (bodyParse req = BodyAccepted ->
   status resp = 204 /\ body resp = NoBody /\ status resp <> 405 /\
   headers resp !! "Allow" = None /\
   headers resp !! "Access-Control-Allow-Methods" = Some "GET,POST,OPTIONS") /\
  (forall e, bodyParse req = BodyRejected e ->
   status resp = errorStatus e /\ body resp = HtmlError /\
   headers resp !! "Allow" = None /\
   headers resp !! "Access-Control-Allow-Methods" = None) /\
  after (app req) w = w.
Proof.
  intros H resp. subst resp. unfold result, after. split; [|split].
  - intros Hb. rewrite app_options by assumption. cbn [fst].
    repeat split; try reflexivity. discriminate.
  - intros e Hb. rewrite (app_rejected _ _ _ Hb). cbn [fst status body errorPage].
    unfold sentBody. rewrite H. repeat split; reflexivity.
  - destruct (bodyParse req) as [|e] eqn:Hb.
    + rewrite app_options by assumption. reflexivity.
    + rewrite (app_rejected _ _ _ Hb). reflexivity.
Qed.

Lemma options_always_204_witness :
  let req := {| method := "OPTIONS"; path := "/auth"; query := ∅;
                bodyParse := BodyAccepted; fresh := stale |} in
  let resp := result (app req) seeded in
  status resp = 204 /\ body resp = NoBody /\ status resp <> 405 /\
  headers resp !! "Allow" = None /\
  headers resp !! "Access-Control-Allow-Methods" = Some "GET,POST,OPTIONS".
Proof.
  intros req resp.
  apply (proj1 (options_always_204 req seeded eq_refl)). reflexivity.
Defined.

(** C8 as stated fails for OPTIONS, which is not POST and is answered 204
    on [/auth]. *)
Lemma wrong_method_405_fails_for_options :
  ~ (forall req w,
       path req = "/auth" -> method req <> "POST" ->
       status (result (app req) w) = 405 /\
       headers (result (app req) w) !! "Allow" = Some "POST").
Proof.
  intros H.
  destruct (H {| method := "OPTIONS"; path := "/auth"; query := ∅;
                 bodyParse := BodyAccepted; fresh := stale |} seeded) as [Hs _];
    [reflexivity | discriminate |].
  vm_compute in Hs. discriminate.
Qed.

(** C8, amended. A request whose body the JSON body parser accepts and
    whose method is neither OPTIONS nor the one permitted on its route
    (GET on [/jwks] and [/.well-known/jwks.json], POST on [/auth]) is
    answered 405 with an [Allow] header that holds the permitted method
    alone and with body [{error: "not allowed"}], which is left off in
    answer to HEAD; the world is left as it was. *)
Theorem wrong_method_405 (req : Request) (w : World) :
  bodyParse req = BodyAccepted ->
  method req <> "OPTIONS" ->
  (isJwksPath (path req) = true -> method req <> "GET" -> Rejected405 "GET" req w) /\
  (pathMatches "/auth" (path req) = true -> method req <> "POST" -> Rejected405 "POST" req w).
Proof.
  intros Hb Hopt. unfold Rejected405, result, after. split; intros Hpath Hm.
  - rewrite app_jwks_wrong_method by assumption. cbn [fst snd].
    repeat split; reflexivity.
  - rewrite app_auth_wrong_method by assumption. cbn [fst snd].
    repeat split; reflexivity.
Qed.

Lemma wrong_method_405_witness :
  Rejected405 "GET" {| method := "POST"; path := "/jwks"; query := ∅;
                       bodyParse := BodyAccepted; fresh := stale |} seeded /\
  Rejected405 "GET" {| method := "HEAD"; path := "/.well-known/jwks.json"; query := ∅;
                       bodyParse := BodyAccepted; fresh := stale |} seeded /\
  Rejected405 "POST" {| method := "PUT"; path := "/auth"; query := ∅;
                        bodyParse := BodyAccepted; fresh := stale |} seeded.
Proof.
  split; [|split].
  - apply (wrong_method_405 {| method := "POST"; path := "/jwks"; query := ∅;
                               bodyParse := BodyAccepted; fresh := stale |} seeded);
      [reflexivity | discriminate | reflexivity | discriminate].
  - apply (wrong_method_405
             {| method := "HEAD"; path := "/.well-known/jwks.json"; query := ∅;
                bodyParse := BodyAccepted; fresh := stale |} seeded);
      [reflexivity | discriminate | reflexivity | discriminate].
  - apply (wrong_method_405 {| method := "PUT"; path := "/auth"; query := ∅;
                               bodyParse := BodyAccepted; fresh := stale |} seeded);
      [reflexivity | discriminate | reflexivity | discriminate].
Defined.

(** ** The [expired] query parameter (C6) *)








Lemma joinItems_thrown items message :
  joinItems items = Thrown message -> In (Thrown message) items.
Proof.
  induction items as [|item rest IH]; [discriminate|].
  destruct rest as [|item' rest'].
  - simpl. intros ->. left. reflexivity.
  - change (joinItems (item :: item' :: rest'))
      with (match item with
            | Thrown m => Thrown m
            | Returned s =>
                match joinItems (item' :: rest') with
                | Thrown m => Thrown m
                | Returned t => Returned (s +:+ "," +:+ t)
                end
            end).
    destruct item as [s | m].
    + destruct (joinItems (item' :: rest')) as [t | m] eqn:E; [discriminate|].
      intros [= ->]. right. apply IH. reflexivity.
    + intros [= ->]. left. reflexivity.
Qed.

(** Induction on a query value and on the items of its arrays. *)
Lemma QueryValue_items_ind (P : QueryValue -> Prop) :
  (forall s, P (QString s)) ->
  (forall items, List.Forall P items -> P (QArray items)) ->
  (forall fields, P (QObject fields)) ->
  forall v, P v.
Proof.
  intros P_string P_array P_object. fix IH 1.
  intros [s | items | fields]; [apply P_string | | apply P_object].
  apply P_array. induction items as [|x xs IHxs]; constructor; [apply IH | exact IHxs].
Qed.

(** The one exception of the conversion. *)
Lemma jsString_thrown v message : jsString v = Thrown message -> message = notPrimitive.
Proof.
  revert message. induction v as [s | items IH | fields] using QueryValue_items_ind;
    intros message H.
  - discriminate H.
  - cbn [jsString] in H. apply joinItems_thrown in H.
    apply in_map_iff in H as (x & Hx & Hin).
    rewrite List.Forall_forall in IH. exact (IH x Hin message Hx).
  - cbn [jsString] in H. destruct (hasOwnToString fields); [|discriminate H].
    injection H as <-. reflexivity.
Qed.

Lemma wantExpired_thrown req message :
  wantExpired req = Thrown message ->
  message = notPrimitive /\
  exists v, query req !! "expired" = Some v /\ jsString v = Thrown message.
Proof.
  unfold wantExpired. destruct (query req !! "expired") as [v|]; [|discriminate].
  destruct (isEmptyString v); [discriminate|].
  destruct (jsString v) as [s | m] eqn:E; [discriminate|].
  intros [= <-]. split; [exact (jsString_thrown _ _ E)|]. exists v. auto.
Qed.

(** The handler looks at the request only through its method, its
    validators and [wantExpired]. *)
Lemma authHandler_wantExpired req req' res :
  method req = method req' -> fresh req = fresh req' ->
  wantExpired req = wantExpired req' ->
  authHandler req res = authHandler req' res.
Proof. unfold authHandler, json, isFresh, sentBody. intros -> -> ->. reflexivity. Qed.

Example wantExpired_examples :
  map (fun q => wantExpired (POST "/auth" q))
      [ ∅; {["expired" := QString ""]}; {["expired" := QString "1"]};
        {["expired" := QString "TRUE"]}; {["expired" := QString "0"]};
        {["expired" := QString "false"]}; {["expired" := QString "yes"]};
        {["expired" := QString " true"]}; {["other" := QString "true"]};
        {["expired" := QArray [QString "true"]]};
        {["expired" := QArray [QString "1"; QString "1"]]};
        {["expired" := QArray []]};
        {["expired" := QObject [("a", QString "1")]]};
        {["expired" := QObject [("toString", QString "1")]]} ]
  = [ Returned false; Returned true; Returned true; Returned true; Returned false;
      Returned false; Returned false; Returned false; Returned false;
      Returned true; Returned false; Returned false; Returned false;
      Thrown "Cannot convert object to primitive value" ].
Proof. vm_compute. reflexivity. Qed.

(** ** Clock readings along a run *)

Lemma Later_refl w : Later w w.
Proof. split; [reflexivity | lia]. Qed.

Lemma Later_tick w w' : Later w w' -> Later w (tick w').
Proof. intros [Hc Ht]. split; [exact Hc | simpl; lia]. Qed.

Lemma Later_stored ttl w w' : Later w w' -> Later w (stored ttl w').
Proof. intros [Hc Ht]. split; [exact Hc | simpl; lia]. Qed.

Lemma Steady_snapshot w w' now : Steady w now -> Later w w' -> snapshot w' = now.
Proof.
  intros Hs [Hc Ht]. unfold snapshot, secondAt. rewrite Hc. apply Hs, Ht.
Qed.

Lemma lastRead_tick w : lastRead (tick w) 1 = snapshot w.
Proof.
  unfold lastRead, snapshot, secondAt, tick. cbn [ticks clock].
  replace (S (ticks w) - 1)%nat with (ticks w) by lia. reflexivity.
Qed.

Lemma lastRead_tick_tick w : lastRead (tick (tick w)) 2 = snapshot w.
Proof.
  unfold lastRead, snapshot, secondAt, tick. cbn [ticks clock].
  replace (S (S (ticks w)) - 2)%nat with (ticks w) by lia. reflexivity.
Qed.


Lemma Later_spent w w' : Later w w' -> Later w (spent w').
Proof. intros [Hc Ht]. split; [exact Hc | simpl; lia]. Qed.

Lemma Later_generated ttl w w' : Later w w' -> Later w (generated ttl w').
Proof. intros H. unfold generated. destruct (tableFull _); auto using Later_spent, Later_stored. Qed.

Lemma ensureActiveKeyPresent_ensured w :
  ensureActiveKeyPresent w =
  (if activeThrows w then Thrown SQLITE_FULL else Returned tt, ensuredActive w).
Proof. unfold ensuredActive, after. rewrite ensureActiveKeyPresent_run. reflexivity. Qed.

Lemma ensureExpiredKeyPresent_ensured w :
  ensureExpiredKeyPresent w =
  (if expiredThrows w then Thrown SQLITE_FULL else Returned tt, ensuredExpired w).
Proof. unfold ensuredExpired, after. rewrite ensureExpiredKeyPresent_run. reflexivity. Qed.

(** Unless it throws, a policy leaves the world it leaves when the table
    has room. *)
Lemma ensuredActive_eq w :
  activeThrows w = false ->
  ensuredActive w = if sqlHasActive (snapshot w) (keys (db w)) then tick w
                    else stored (inject_Z (60 * 60)) (tick w).
Proof.
  unfold activeThrows, ensuredActive, after. rewrite ensureActiveKeyPresent_run. cbn [snd].
  destruct (sqlHasActive _ _); [reflexivity|]. cbn [negb andb]. intros H.
  apply generated_room. exact H.
Qed.

Lemma ensuredExpired_eq w :
  expiredThrows w = false ->
  ensuredExpired w = if sqlHasExpired (snapshot w) (keys (db w)) then tick w
                     else stored (inject_Z (-60)) (tick w).
Proof.
  unfold expiredThrows, ensuredExpired, after. rewrite ensureExpiredKeyPresent_run. cbn [snd].
  destruct (sqlHasExpired _ _); [reflexivity|]. cbn [negb andb]. intros H.
  apply generated_room. exact H.
Qed.

(** When a policy throws it has stored nothing and found nothing. *)
Lemma activeThrows_true w :
  activeThrows w = true ->
  tableFull (db w) = true /\ db (ensuredActive w) = db w /\
  sqlHasActive (snapshot w) (keys (db w)) = false.
Proof.
  unfold activeThrows, ensuredActive, after. rewrite ensureActiveKeyPresent_run. cbn [snd].
  destruct (sqlHasActive _ _); [discriminate|]. cbn [negb andb]. intros H.
  unfold generated. change (db (tick w)) with (db w). rewrite H. auto.
Qed.

Lemma expiredThrows_true w :
  expiredThrows w = true ->
  tableFull (db w) = true /\ db (ensuredExpired w) = db w /\
  sqlHasExpired (snapshot w) (keys (db w)) = false.
Proof.
  unfold expiredThrows, ensuredExpired, after. rewrite ensureExpiredKeyPresent_run. cbn [snd].
  destruct (sqlHasExpired _ _); [discriminate|]. cbn [negb andb]. intros H.
  unfold generated. change (db (tick w)) with (db w). rewrite H. auto.
Qed.

Lemma activeThrows_room w : tableFull (db w) = false -> activeThrows w = false.
Proof. intros H. unfold activeThrows. rewrite H. apply andb_false_r. Qed.

Lemma expiredThrows_room w : tableFull (db w) = false -> expiredThrows w = false.
Proof. intros H. unfold expiredThrows. rewrite H. apply andb_false_r. Qed.

Lemma ensureThrows_room flag w : tableFull (db w) = false -> ensureThrows flag w = false.
Proof. destruct flag; [apply expiredThrows_room | apply activeThrows_room]. Qed.

Lemma Room_ensuredActive n w : Room n (db w) -> Room (n - 1) (db (ensuredActive w)).
Proof.
  intros H. unfold ensuredActive, after. rewrite ensureActiveKeyPresent_run. cbn [snd].
  destruct (sqlHasActive _ _).
  - apply (Room_le n); [lia | exact H].
  - apply Room_generated. exact H.
Qed.

Lemma Room_ensuredExpired n w : Room n (db w) -> Room (n - 1) (db (ensuredExpired w)).
Proof.
  intros H. unfold ensuredExpired, after. rewrite ensureExpiredKeyPresent_run. cbn [snd].
  destruct (sqlHasExpired _ _).
  - apply (Room_le n); [lia | exact H].
  - apply Room_generated. exact H.
Qed.

Lemma Room_ensured n flag w : Room n (db w) -> Room (n - 1) (db (ensured flag w)).
Proof. destruct flag; [apply Room_ensuredExpired | apply Room_ensuredActive]. Qed.

Lemma Later_ensuredActive w w' : Later w w' -> Later w (ensuredActive w').
Proof.
  intros H. unfold ensuredActive, after. rewrite ensureActiveKeyPresent_run. cbn [snd].
  destruct (sqlHasActive _ _); auto using Later_tick, Later_generated.
Qed.

Lemma Later_ensuredExpired w w' : Later w w' -> Later w (ensuredExpired w').
Proof.
  intros H. unfold ensuredExpired, after. rewrite ensureExpiredKeyPresent_run. cbn [snd].
  destruct (sqlHasExpired _ _); auto using Later_tick, Later_generated.
Qed.

(** While the clock stands still the backfill does what it is for,
    unless it throws. *)
Lemma ensuredActive_hasActive w0 w now :
  Steady w0 now -> Later w0 w -> activeThrows w = false ->
  sqlHasActive now (keys (db (ensuredActive w))) = true.
Proof.
  intros Hs Hl Hroom. rewrite (ensuredActive_eq _ Hroom).
  rewrite (Steady_snapshot _ _ _ Hs Hl).
  destruct (sqlHasActive now (keys (db w))) eqn:E; [exact E|].
  apply sqlHasActive_true. eexists. split.
  - cbn [stored db keys]. apply in_or_app. right. left. reflexivity.
  - cbn [exp]. rewrite Qfloor_Z, jsAdd_snapshot by lia.
    rewrite (Steady_snapshot _ _ _ Hs (Later_tick _ _ Hl)). lia.
Qed.

Lemma ensuredExpired_hasExpired w0 w now :
  Steady w0 now -> Later w0 w -> expiredThrows w = false ->
  sqlHasExpired now (keys (db (ensuredExpired w))) = true.
Proof.
  intros Hs Hl Hroom. rewrite (ensuredExpired_eq _ Hroom).
  rewrite (Steady_snapshot _ _ _ Hs Hl).
  destruct (sqlHasExpired now (keys (db w))) eqn:E; [exact E|].
  apply sqlHasExpired_true. eexists. split.
  - cbn [stored db keys]. apply in_or_app. right. left. reflexivity.
  - cbn [exp]. rewrite Qfloor_Z, jsAdd_snapshot by lia.
    rewrite (Steady_snapshot _ _ _ Hs (Later_tick _ _ Hl)). lia.
Qed.

Lemma sqlOneActive_head t rows : sqlOneActive t rows = head (sqlAllValid t rows).
Proof. reflexivity. Qed.

Lemma sqlSelectOne_is_Some wantExpired t rows :
  (exists x, In x rows /\ qualifies wantExpired t x) ->
  exists r, sqlSelectOne wantExpired t rows = Some r.
Proof.
  intros (x & Hx & Hq).
  destruct (sqlSelectOne wantExpired t rows) as [r|] eqn:E; [eauto|].
  exfalso. exact (proj1 (sqlSelectOne_None _ _ _) E x Hx Hq).
Qed.

Lemma sqlHasActive_selects t rows :
  sqlHasActive t rows = true -> exists r, sqlSelectOne false t rows = Some r.
Proof. intros H. apply sqlSelectOne_is_Some. apply sqlHasActive_true in H. exact H. Qed.

Lemma sqlHasExpired_selects t rows :
  sqlHasExpired t rows = true -> exists r, sqlSelectOne true t rows = Some r.
Proof. intros H. apply sqlSelectOne_is_Some. apply sqlHasExpired_true in H. exact H. Qed.

(** ** The JWKS route (C3) *)

Lemma kidLabelForRow_run r w : kidLabelForRow r w = (labelAt (snapshot w) r, tick w).
Proof.
  unfold kidLabelForRow, isExpiredRow, nowSec, nowMs, mbind, M_bind, mret, M_ret, labelAt.
  change (timeValue (clock w (ticks w)) / 1000) with (secondAt w (ticks w)).
  rewrite expOf_leb. reflexivity.
Qed.

Lemma jwksHandler_run req res w :
  jwksHandler req res w =
  let w1 := ensuredActive w in
  if activeThrows w then (serverError req res SQLITE_FULL, w1)
  else
    match sqlAllValid (snapshot w1) (keys (db w1)) with
    | r :: _ => (jwksOk req res r (snapshot (tick w1)), tick (tick w1))
    | [] =>
        let w3 := ensuredActive (tick w1) in
        if activeThrows (tick w1) then (serverError req res SQLITE_FULL, w3)
        else
          match sqlAllValid (snapshot w3) (keys (db w3)) with
          | r :: _ => (jwksOk req res r (snapshot (tick w3)), tick (tick w3))
          | [] => (jwksNone req res, tick w3)
          end
    end.
Proof.
  unfold jwksHandler, tryCatch, tryBind, mbind, M_bind.
  rewrite ensureActiveKeyPresent_ensured. cbv zeta.
  destruct (activeThrows w); [reflexivity|]. cbv beta iota.
  rewrite selectAllValidKeys_run.
  destruct (sqlAllValid (snapshot (ensuredActive w)) (keys (db (ensuredActive w))))
    as [|r rest] eqn:E1.
  - rewrite ensureActiveKeyPresent_ensured.
    destruct (activeThrows (tick (ensuredActive w))); [reflexivity|]. cbv beta iota.
    rewrite selectAllValidKeys_run.
    destruct (sqlAllValid (snapshot (ensuredActive (tick (ensuredActive w)))) _)
      as [|r rest]; [reflexivity|].
    unfold mret, M_ret. cbv beta iota. rewrite kidLabelForRow_run. reflexivity.
  - unfold mret, M_ret. cbv beta iota. rewrite kidLabelForRow_run. reflexivity.
Qed.

(** With room for two rows neither backfill throws. *)
Lemma jwksHandler_run_room req res w :
  Room 2 (db w) ->
  jwksHandler req res w =
  let w1 := ensuredActive w in
  match sqlAllValid (snapshot w1) (keys (db w1)) with
  | r :: _ => (jwksOk req res r (snapshot (tick w1)), tick (tick w1))
  | [] =>
      let w3 := ensuredActive (tick w1) in
      match sqlAllValid (snapshot w3) (keys (db w3)) with
      | r :: _ => (jwksOk req res r (snapshot (tick w3)), tick (tick w3))
      | [] => (jwksNone req res, tick w3)
      end
  end.
Proof.
  intros Hroom. rewrite jwksHandler_run. cbv zeta.
  rewrite (activeThrows_room w) by (apply (Room_not_full 2); [lia | exact Hroom]).
  rewrite (activeThrows_room (tick (ensuredActive w)))
    by (apply (Room_not_full 1); [lia | apply (Room_ensuredActive 2), Hroom]).
  reflexivity.
Qed.

Lemma isFresh_post req code b : method req = "POST" -> isFresh req code b = false.
Proof.
  intros H. unfold isFresh. rewrite H.
  replace (bool_decide ("POST" = "GET")) with false by reflexivity.
  replace (bool_decide ("POST" = "HEAD")) with false by reflexivity.
  cbn [orb]. rewrite andb_false_r. reflexivity.
Qed.

Lemma isFresh_get req b : method req = "GET" -> isFresh req 200 b = fresh req b.
Proof.
  intros H. unfold isFresh. rewrite H.
  replace (bool_decide ("GET" = "GET")) with true by reflexivity. reflexivity.
Qed.

Lemma json_body req b res :
  method req <> "HEAD" -> isFresh req (status res) b = false -> body (json req b res) = b.
Proof.
  intros H Hf. unfold json, sentBody. rewrite Hf. cbn [body].
  rewrite bool_decide_eq_false_2 by exact H. reflexivity.
Qed.

Lemma json_body_post req b res : method req = "POST" -> body (json req b res) = b.
Proof.
  intros H. apply json_body; [rewrite H; discriminate | apply isFresh_post, H].
Qed.

Lemma json_status_post req b res : method req = "POST" -> status (json req b res) = status res.
Proof. intros H. unfold json. rewrite (isFresh_post _ _ _ H). reflexivity. Qed.

(** The 200 answer of the JWKS route to a GET. *)
Lemma jwksOk_answer req res r t :
  method req = "GET" ->
  Answered200 req (jwksOk req res r t)
    (JsonKeys [publicJwkFromPrivateKey (keyObjectFromDbRow r) (labelAt t r)]).
Proof.
  intros Hm. unfold Answered200, jwksOk, json. cbn [status setStatus].
  rewrite (isFresh_get _ _ Hm).
  destruct (fresh req _); cbn [status body]; [split; reflexivity|].
  unfold sentBody. rewrite Hm. split; reflexivity.
Qed.

Lemma app_get_jwks req w :
  bodyParse req = BodyAccepted ->
  method req = "GET" -> isJwksPath (path req) = true ->
  app req w = jwksHandler req corsResponse w.
Proof.
  intros Hb Hm Hpath.
  rewrite app_past_cors by (try assumption; rewrite Hm; discriminate).
  assert (Hok : method req ∈ ["GET"]) by (rewrite Hm; apply list_elem_of_singleton; reflexivity).
  pose proof (route_jwks_not_auth _ Hpath) as Hauth.
  unfold stack. cbn [dispatch tail]. unfold all, get, mbind, M_bind, mret, M_ret.
  rewrite Hauth. cbn [existsb]. rewrite orb_false_r.
  fold (isJwksPath (path req)). rewrite Hpath.
  rewrite (bool_decide_eq_true_2 _ Hm). cbn [orb andb].
  destruct (pathMatches "/jwks" (path req));
    destruct (pathMatches "/.well-known/jwks.json" (path req));
    rewrite ?(methodGuard_pass _ _ _ _ _ Hok); cbv beta iota;
    rewrite ?(methodGuard_pass _ _ _ _ _ Hok); cbv beta iota;
    destruct (jwksHandler req corsResponse w); reflexivity.
Qed.

Lemma sqlAllValid_head_active t rows r rest :
  sqlAllValid t rows = r :: rest -> sqlOneActive t rows = Some r /\ t < exp r.
Proof.
  intros E. assert (H : sqlSelectOne false t rows = Some r).
  { simpl. rewrite sqlOneActive_head, E. reflexivity. }
  split; [exact H|].
  apply sqlSelectOne_Some in H. destruct H as (? & ? & _ & Hq & _). exact Hq.
Qed.

(** The first row of the selection is a stored row with the soonest
    expiration among the valid ones. *)
Lemma sqlAllValid_head_soonest t rows r rest :
  sqlAllValid t rows = r :: rest ->
  In r rows /\ t < exp r /\
  (forall x, In x rows -> t < exp x -> exp r <= exp x) /\
  sqlOneActive t rows = Some r.
Proof.
  intros E. destruct (sqlAllValid_head_active _ _ _ _ E) as [Hone Hgt].
  assert (Hsel : Selected false t rows r) by (apply sqlSelectOne_Some; exact Hone).
  split; [eapply Selected_In; exact Hsel|]. split; [exact Hgt|]. split; [|exact Hone].
  intros x Hx Hq. exact (Selected_best _ _ _ _ Hsel x Hx Hq).
Qed.

Lemma sqlAllValid_nil_all_expired t rows :
  sqlAllValid t rows = [] -> forall x, In x rows -> exp x <= t.
Proof.
  intros E x Hx.
  assert (H : sqlSelectOne false t rows = None).
  { simpl. rewrite sqlOneActive_head, E. reflexivity. }
  pose proof (proj1 (sqlSelectOne_None _ _ _) H x Hx) as Hq. simpl in Hq. lia.
Qed.

Lemma labelAt_active t r : t < exp r -> labelAt t r = "key-active-1".
Proof. intros H. unfold labelAt. destruct (Z.leb_spec (exp r) t); [lia | reflexivity]. Qed.

Lemma labelAt_expired t r : exp r <= t -> labelAt t r = "key-expired-1".
Proof. intros H. unfold labelAt. destruct (Z.leb_spec (exp r) t); [reflexivity | lia]. Qed.

(** C3 as stated fails when the selected key expires between the
    selection and the labelling, which each read the clock: the answer
    is 200 and its one JWK is labelled ["key-expired-1"]. *)
Lemma jwks_kid_can_be_expired_label :
  ~ (forall req w,
       method req = "GET" -> isJwksPath (path req) = true ->
       bodyParse req = BodyAccepted ->
       status (result (app req) w) = 200 ->
       exists jwk,
         body (result (app req) w) = JsonKeys [jwk] /\ Jwk.kid jwk = "key-active-1").
Proof.
  intros H.
  destruct (H (GET "/jwks") aboutToExpire eq_refl eq_refl eq_refl eq_refl)
    as (jwk & Hbody & Hkid).
  vm_compute in Hbody. injection Hbody as <-. discriminate Hkid.
Qed.

(** C3, amended. A GET on [/jwks] or [/.well-known/jwks.json] whose body
    the JSON body parser accepts runs the backfill and then selects the
    valid rows. With [w'] the world after the request:
    - if some stored row has [exp] greater than the second [now] the
      selection read, the answer is 200 with [{keys: [jwk]}] holding one
      JWK only, the public half of a stored row with the soonest
      expiration among those with [exp > now], with [kty = "RSA"],
      [use = "sig"], [alg = "RS256"]; its [kid] is ["key-active-1"] if
      that row is still unexpired at the clock read that follows, and
      ["key-expired-1"] if it has expired by then;
    - if no stored row has, even after the second backfill, the answer
      is 404 with [{error: "no keys available"}];
    - if a backfill finds no valid row and the table full, its insert
      throws and the answer is 500 with the message of SQLite.
    When the clock reads of the request all fall in one second, and
    unless the backfill throws, the answer is 200 and the [kid] is
    ["key-active-1"]. In place of 200 and the body, a request whose
    validators match the body is answered 304 without a body; a request
    without validators never is. *)
Theorem jwks_single_active_key (req : Request) (w : World) :
  method req = "GET" ->
  isJwksPath (path req) = true ->
  bodyParse req = BodyAccepted ->
  let resp := result (app req) w in
  let w' := after (app req) w in
  ((exists r,
      In r (keys (db w')) /\
      lastRead w' 2 < exp r /\
      (forall x, In x (keys (db w')) -> lastRead w' 2 < exp x -> exp r <= exp x) /\
      sqlOneActive (lastRead w' 2) (keys (db w')) = Some r /\
      Answered200 req resp
        (JsonKeys [ {| Jwk.n_e := RsaPublicKey (key r);
                       Jwk.kid := if exp r <=? lastRead w' 1
                                  then "key-expired-1" else "key-active-1";
                       Jwk.kty := "RSA";
                       Jwk.use := "sig";
                       Jwk.alg := "RS256" |} ])) \/
   ((forall x, In x (keys (db w')) -> exp x <= lastRead w' 1) /\
    status resp = 404 /\
    body resp = JsonError "no keys available") \/
   ((forall x, In x (keys (db w')) -> exp x <= lastRead w' 2) /\
    tableFull (db w') = true /\
    status resp = 500 /\
    body resp = JsonError SQLITE_FULL)) /\
  (forall now, Steady w now -> activeThrows w = false ->
     exists r,
       sqlOneActive now (keys (db w')) = Some r /\
       now < exp r /\
       Answered200 req resp
         (JsonKeys [ {| Jwk.n_e := RsaPublicKey (key r);
                        Jwk.kid := "key-active-1";
                        Jwk.kty := "RSA";
                        Jwk.use := "sig";
                        Jwk.alg := "RS256" |} ])) /\
  ((forall b, fresh req b = false) ->
   forall b, Answered200 req resp b <-> status resp = 200 /\ body resp = b).
Proof.
  intros Hm Hpath Hb resp w'. subst resp w'. unfold result, after.
  rewrite app_get_jwks by assumption. rewrite jwksHandler_run. cbv zeta.
  assert (Hhead : method req <> "HEAD") by (rewrite Hm; discriminate).
  set (w1 := ensuredActive w). set (w3 := ensuredActive (tick w1)).
  assert (Hok : forall v r rest,
    sqlAllValid (snapshot v) (keys (db v)) = r :: rest ->
    let w' := tick (tick v) in
    In r (keys (db w')) /\
    lastRead w' 2 < exp r /\
    (forall x, In x (keys (db w')) -> lastRead w' 2 < exp x -> exp r <= exp x) /\
    sqlOneActive (lastRead w' 2) (keys (db w')) = Some r /\
    Answered200 req (jwksOk req corsResponse r (snapshot (tick v)))
      (JsonKeys [ {| Jwk.n_e := RsaPublicKey (key r);
                     Jwk.kid := if exp r <=? lastRead w' 1
                                then "key-expired-1" else "key-active-1";
                     Jwk.kty := "RSA";
                     Jwk.use := "sig";
                     Jwk.alg := "RS256" |} ])).
  { intros v r rest E w'. subst w'.
    rewrite lastRead_tick_tick, lastRead_tick. change (db (tick (tick v))) with (db v).
    destruct (sqlAllValid_head_soonest _ _ _ _ E) as (H1 & H2 & H3 & H4).
    repeat (split; [assumption|]).
    exact (jwksOk_answer req corsResponse r (snapshot (tick v)) Hm). }
  assert (Hthrown : forall v,
    activeThrows v = true ->
    let w' := ensuredActive v in
    (forall x, In x (keys (db w')) -> exp x <= lastRead w' 2) /\
    tableFull (db w') = true /\
    status (serverError req corsResponse SQLITE_FULL) = 500 /\
    body (serverError req corsResponse SQLITE_FULL) = JsonError SQLITE_FULL).
  { intros v Hv w'. subst w'.
    destruct (activeThrows_true v Hv) as (Hfull & Hdb & Hnone).
    assert (Hw : ensuredActive v = spent (tick v)).
    { unfold ensuredActive, after. rewrite ensureActiveKeyPresent_run, Hnone. cbn [snd].
      unfold generated. change (db (tick v)) with (db v). rewrite Hfull. reflexivity. }
    rewrite Hdb. split; [|split; [exact Hfull|]].
    - rewrite Hw. change (lastRead (spent (tick v)) 2) with (lastRead (tick (tick v)) 2).
      rewrite lastRead_tick_tick. intros x Hx.
      destruct (Z.le_gt_cases (exp x) (snapshot v)) as [Hle | Hgt]; [exact Hle|].
      assert (sqlHasActive (snapshot v) (keys (db v)) = true)
        by (apply sqlHasActive_true; exists x; split; [exact Hx | lia]).
      congruence.
    - split; [reflexivity|]. unfold serverError. apply json_body; [exact Hhead | reflexivity]. }
  split; [|split].
  - destruct (activeThrows w) eqn:T1; cbn [fst snd];
      [right; right; exact (Hthrown w T1)|].
    destruct (sqlAllValid (snapshot w1) (keys (db w1))) as [|r rest] eqn:E1;
      [|left; exists r; exact (Hok _ _ _ E1)].
    destruct (activeThrows (tick w1)) eqn:T3; cbn [fst snd];
      [right; right; exact (Hthrown (tick w1) T3)|].
    destruct (sqlAllValid (snapshot w3) (keys (db w3))) as [|r rest] eqn:E3;
      [|left; exists r; exact (Hok _ _ _ E3)].
    right. left. cbn [fst snd]. rewrite lastRead_tick. change (db (tick w3)) with (db w3).
    split; [exact (sqlAllValid_nil_all_expired _ _ E3)|]. split; [reflexivity|].
    unfold jwksNone. apply json_body; [exact Hhead | reflexivity].
  - intros now Hs Hroom. rewrite Hroom.
    assert (Hl : Later w w1) by apply Later_ensuredActive, Later_refl.
    pose proof (ensuredActive_hasActive w w now Hs (Later_refl w) Hroom) as Hact.
    fold w1 in Hact.
    rewrite (Steady_snapshot _ _ _ Hs Hl).
    apply sqlHasActive_selects in Hact as [r Hr].
    simpl in Hr. rewrite sqlOneActive_head in Hr.
    destruct (sqlAllValid now (keys (db w1))) as [|r' rest] eqn:E1; [discriminate|].
    injection Hr as ->. cbn [fst snd].
    destruct (sqlAllValid_head_active _ _ _ _ E1) as [Hone Hgt].
    exists r. split; [exact Hone|]. split; [exact Hgt|].
    pose proof (jwksOk_answer req corsResponse r (snapshot (tick w1)) Hm) as Hans.
    unfold publicJwkFromPrivateKey, keyObjectFromDbRow in Hans.
    rewrite (Steady_snapshot _ _ _ Hs (Later_tick _ _ Hl)) in Hans |- *.
    rewrite (labelAt_active _ _ Hgt) in Hans. exact Hans.
  - intros Hstale b. unfold Answered200. rewrite Hstale. reflexivity.
Qed.

Lemma jwks_single_active_key_witness :
  let w := worldAt 1700000000000 emptyDb in
  let resp := result (app (GET "/jwks")) w in
  let w' := after (app (GET "/jwks")) w in
  exists r,
    sqlOneActive 1700000000 (keys (db w')) = Some r /\
    1700000000 < exp r /\
    status resp = 200 /\
    body resp = JsonKeys [ {| Jwk.n_e := RsaPublicKey (key r);
                              Jwk.kid := "key-active-1";
                              Jwk.kty := "RSA";
                              Jwk.use := "sig";
                              Jwk.alg := "RS256" |} ].
Proof.
  intros w resp w'.
  apply (proj1 (proj2 (jwks_single_active_key (GET "/jwks") w eq_refl eq_refl eq_refl))
           1700000000).
  - intros i _. reflexivity.
  - reflexivity.
Defined.

(** A full table without a valid key: the insert of the backfill throws. *)
Example jwks_table_full :
  let resp := result (app (GET "/jwks")) fullAndEmpty in
  status resp = 500 /\ body resp = JsonError "database or disk is full".
Proof. split; reflexivity. Qed.

(** The first qualifying record only, though two keys are valid. *)
Example jwks_two_active_keys :
  body (result (app (GET "/.well-known/jwks.json")) (worldAt 1700000000123 duplicatedDb))
  = JsonKeys [ {| Jwk.n_e := RsaPublicKey (RsaPrivateKey 1);
                  Jwk.kid := "key-active-1";
                  Jwk.kty := "RSA";
                  Jwk.use := "sig";
                  Jwk.alg := "RS256" |} ].
Proof. reflexivity. Qed.

(** When the clock leaps past the TTL between generating a key and
    selecting it, no key is valid even after the second backfill. *)
Example jwks_no_keys_available :
  let resp := result (app (GET "/jwks")) (leapingClock (worldAt 0 emptyDb)) in
  status resp = 404 /\ body resp = JsonError "no keys available".
Proof. split; reflexivity. Qed.

(** ** The auth route (C2) *)

Lemma authHandler_run req res w flag :
  wantExpired req = Returned flag ->
  authHandler req res w =
  let w1 := ensured flag w in
  if ensureThrows flag w then (serverError req res SQLITE_FULL, w1)
  else
    match sqlSelectOne flag (snapshot w1) (keys (db w1)) with
    | Some row =>
        (authOk req res flag row (snapshot (tick w1)) (snapshot (tick (tick w1))),
         tick (tick (tick w1)))
    | None =>
        let w3 := ensured flag (tick w1) in
        if ensureThrows flag (tick w1) then (serverError req res SQLITE_FULL, w3)
        else
          match sqlSelectOne flag (snapshot w3) (keys (db w3)) with
          | Some row =>
              (authOk req res flag row (snapshot (tick w3)) (snapshot (tick (tick w3))),
               tick (tick (tick w3)))
          | None => (authNone req res flag, tick w3)
          end
    end.
Proof.
  intros Hflag.
  unfold authHandler, tryCatch, tryBind, mbind, M_bind. rewrite Hflag.
  unfold mret at 1. unfold M_ret at 1. cbv beta iota zeta.
  assert (E : forall v,
    (if flag then ensureExpiredKeyPresent else ensureActiveKeyPresent) v
    = (if ensureThrows flag v then Thrown SQLITE_FULL else Returned tt,
       ensured flag v)).
  { intros v. unfold ensured, ensureThrows. destruct flag;
      [apply ensureExpiredKeyPresent_ensured | apply ensureActiveKeyPresent_ensured]. }
  assert (Hok : forall row v,
    (let '(iat, v1) := nowSec v in
     let '(r, v2) :=
       (let '(kidLabel, v2) := kidLabelForRow row v1 in
        (Returned
           (json req
              (JsonToken
                 (signJwt row kidLabel iat
                    (if flag then expOf row else jsAdd iat (60 * 5))
                    (keyObjectFromDbRow row))
                 (signJwt row kidLabel iat
                    (if flag then expOf row else jsAdd iat (60 * 5))
                    (keyObjectFromDbRow row)))
              (setStatus 200 res)), v2)) in
     match r with
     | Returned a => (a, v2)
     | Thrown message => (json req (JsonError message) (setStatus 500 res), v2)
     end)
    = (authOk req res flag row (snapshot v) (snapshot (tick v)),
       tick (tick v))).
  { intros row v. rewrite nowSec_run, kidLabelForRow_run.
    rewrite jsAdd_snapshot by lia. reflexivity. }
  rewrite E.
  destruct (ensureThrows flag w); [reflexivity|]. cbv beta iota.
  rewrite selectOneKey_run.
  destruct (sqlSelectOne flag (snapshot (ensured flag w)) _)
    as [row|].
  - unfold mret, M_ret. cbv beta iota.
    pose proof (Hok row (tick (ensured flag w))) as H.
    rewrite nowSec_run, kidLabelForRow_run in H |- *. exact H.
  - rewrite E.
    destruct (ensureThrows flag (tick (ensured flag w)));
      [reflexivity|]. cbv beta iota.
    rewrite selectOneKey_run.
    destruct (sqlSelectOne flag
                (snapshot (ensured flag (tick (ensured flag w)))) _)
      as [row|]; [|reflexivity].
    unfold mret, M_ret. cbv beta iota.
    pose proof (Hok row (tick (ensured flag
                                 (tick (ensured flag w))))) as H.
    rewrite nowSec_run, kidLabelForRow_run in H |- *. exact H.
Qed.

(** When the conversion of the parameter throws, the handler answers 500
    with the message and touches neither the store nor the clock. *)
Lemma authHandler_thrown req res w message :
  wantExpired req = Thrown message ->
  authHandler req res w = (serverError req res message, w).
Proof.
  intros Hflag. unfold authHandler, tryCatch, tryBind, mbind, M_bind. rewrite Hflag.
  reflexivity.
Qed.

(** With room for two rows neither backfill throws. *)
Lemma authHandler_run_room req res w flag :
  wantExpired req = Returned flag ->
  Room 2 (db w) ->
  authHandler req res w =
  let w1 := ensured flag w in
  match sqlSelectOne flag (snapshot w1) (keys (db w1)) with
  | Some row =>
      (authOk req res flag row (snapshot (tick w1)) (snapshot (tick (tick w1))),
       tick (tick (tick w1)))
  | None =>
      let w3 := ensured flag (tick w1) in
      match sqlSelectOne flag (snapshot w3) (keys (db w3)) with
      | Some row =>
          (authOk req res flag row (snapshot (tick w3)) (snapshot (tick (tick w3))),
           tick (tick (tick w3)))
      | None => (authNone req res flag, tick w3)
      end
  end.
Proof.
  intros Hflag Hroom. rewrite (authHandler_run _ _ _ _ Hflag). cbv zeta.
  rewrite (ensureThrows_room _ w) by (apply (Room_not_full 2); [lia | exact Hroom]).
  rewrite (ensureThrows_room _ (tick (ensured flag w)))
    by (apply (Room_not_full 1); [lia | apply (Room_ensured 2), Hroom]).
  reflexivity.
Qed.

Lemma authOk_status req res flag row iat t :
  method req = "POST" -> status (authOk req res flag row iat t) = 200.
Proof. intros Hm. unfold authOk. cbv zeta. rewrite json_status_post by exact Hm. reflexivity. Qed.

Lemma authNone_status req res flag : status (authNone req res flag) = 401.
Proof. reflexivity. Qed.


Lemma serverError_body req res message :
  method req <> "HEAD" -> body (serverError req res message) = JsonError message.
Proof. intros H. unfold serverError. apply json_body; [exact H | reflexivity]. Qed.

Lemma app_post_auth req w :
  bodyParse req = BodyAccepted ->
  method req = "POST" -> pathMatches "/auth" (path req) = true ->
  app req w = authHandler req corsResponse w.
Proof.
  intros Hb Hm Hpath.
  rewrite app_past_cors by (try assumption; rewrite Hm; discriminate).
  assert (Hok : method req ∈ ["POST"])
    by (rewrite Hm; apply list_elem_of_singleton; reflexivity).
  destruct (route_auth_not_jwks _ Hpath) as [E1 E2].
  unfold stack. cbn [dispatch tail]. unfold all, get, post, mbind, M_bind, mret, M_ret.
  rewrite E1, E2, Hpath. cbv beta iota.
  rewrite (methodGuard_pass _ _ _ _ _ Hok). cbv beta iota.
  rewrite Hm. cbn [existsb orb andb bool_decide].
  replace (bool_decide ("POST" = "GET")) with false by reflexivity.
  replace (bool_decide ("POST" = "HEAD")) with false by reflexivity.
  replace (bool_decide ("POST" = "POST")) with true by reflexivity.
  cbv beta iota. cbn [orb andb].
  destruct (authHandler req corsResponse w); reflexivity.
Qed.

Lemma Later_ensured flag w w' : Later w w' -> Later w (ensured flag w').
Proof. destruct flag; [apply Later_ensuredExpired | apply Later_ensuredActive]. Qed.

Lemma ensured_selects flag w0 w now :
  Steady w0 now -> Later w0 w -> ensureThrows flag w = false ->
  exists r, sqlSelectOne flag now (keys (db (ensured flag w))) = Some r.
Proof.
  intros Hs Hl Hroom. destruct flag; cbn [ensured ensureThrows] in *.
  - apply sqlHasExpired_selects. eapply ensuredExpired_hasExpired; eassumption.
  - apply sqlHasActive_selects. eapply ensuredActive_hasActive; eassumption.
Qed.

(** A policy that throws leaves the table as it found it: full, and
    without a row of the kind asked for at the second it read. *)
Lemma ensureThrows_true flag v :
  ensureThrows flag v = true ->
  tableFull (db v) = true /\
  ensured flag v = spent (tick v) /\
  forall r, In r (keys (db v)) -> ~ qualifies flag (snapshot v) r.
Proof.
  destruct flag; cbn [ensureThrows ensured qualifies]; intros H.
  - destruct (expiredThrows_true v H) as (Hfull & _ & Hnone).
    split; [exact Hfull|]. split.
    + unfold ensuredExpired, after. rewrite ensureExpiredKeyPresent_run, Hnone. cbn [snd].
      unfold generated. change (db (tick v)) with (db v). rewrite Hfull. reflexivity.
    + intros r Hr Hq.
      assert (sqlHasExpired (snapshot v) (keys (db v)) = true)
        by (apply sqlHasExpired_true; exists r; auto).
      congruence.
  - destruct (activeThrows_true v H) as (Hfull & _ & Hnone).
    split; [exact Hfull|]. split.
    + unfold ensuredActive, after. rewrite ensureActiveKeyPresent_run, Hnone. cbn [snd].
      unfold generated. change (db (tick v)) with (db v). rewrite Hfull. reflexivity.
    + intros r Hr Hq.
      assert (sqlHasActive (snapshot v) (keys (db v)) = true)
        by (apply sqlHasActive_true; exists r; auto).
      congruence.
Qed.




(** On the seeded store: [exp - iat = 300] on the active path, and on the
    expired path the stored expiration of the expired key, five minutes
    before startup. *)
Example auth_active_token :
  body (result (app (POST "/auth" ∅)) seeded)
  = let token := signJwt (mkRow 1 (RsaPrivateKey 0) 1700003600) "key-active-1"
                   1700000000 1700000300 (RsaPrivateKey 0) in
    JsonToken token token.
Proof. reflexivity. Qed.

Example auth_expired_token :
  body (result (app (POST "/auth" {["expired" := QString "true"]})) seeded)
  = let token := signJwt (mkRow 2 (RsaPrivateKey 1) 1699999700) "key-expired-1"
                   1700000000 1699999700 (RsaPrivateKey 1) in
    JsonToken token token.
Proof. reflexivity. Qed.

(** ** The [expired] query parameter and the path taken (C6) *)




(** A parameter whose conversion to text throws is answered 500. *)
Example auth_conversion_throws :
  let req := POST "/auth" {["expired" := QObject [("toString", QString "1")]]} in
  status (result (app req) seeded) = 500 /\
  body (result (app req) seeded) = JsonError "Cannot convert object to primitive value" /\
  after (app req) seeded = seeded.
Proof. repeat split; reflexivity. Qed.

(** The examples of the selection rule: active keys expiring 100, 200 and
    300 seconds from now, expired keys 500, 100 and 10 seconds ago. *)
Example selectOneKey_examples :
  let w := worldAt 1700000000000
             {| keys := [ mkRow 1 (RsaPrivateKey 0) 1700000300;
                          mkRow 2 (RsaPrivateKey 1) 1699999500;
                          mkRow 3 (RsaPrivateKey 2) 1700000100;
                          mkRow 4 (RsaPrivateKey 3) 1699999990;
                          mkRow 5 (RsaPrivateKey 4) 1700000200;
                          mkRow 6 (RsaPrivateKey 5) 1699999900;
                          mkRow 7 (RsaPrivateKey 6) 1700000000 ];
                sqlite_sequence := 7 |} in
  result (selectOneKey false) w = Some (mkRow 3 (RsaPrivateKey 2) 1700000100) /\
  result (selectOneKey true) w = Some (mkRow 7 (RsaPrivateKey 6) 1700000000).
Proof. split; reflexivity. Qed.


(** * Further properties of the code *)

(** ** [selectAllValidKeys]: every valid row once, soonest first *)

Lemma insertBy_Permutation before r l : Permutation (insertBy before r l) (r :: l).
Proof.
  induction l as [|x xs IH]; simpl; [reflexivity|].
  destruct (before r x); [reflexivity|].
  rewrite IH. apply perm_swap.
Qed.

Lemma orderBy_Permutation before l : Permutation (orderBy before l) l.
Proof.
  induction l as [|x xs IH]; simpl; [reflexivity|].
  unfold orderBy in *. simpl. rewrite insertBy_Permutation. apply perm_skip, IH.
Qed.

Lemma insertBy_expAsc_sorted r l :
  StronglySorted expLe l -> StronglySorted expLe (insertBy expAsc r l).
Proof.
  induction 1 as [|x xs Hs IH Hx]; simpl.
  - constructor; constructor.
  - destruct (expAsc r x) eqn:E.
    + constructor; [constructor; assumption|].
      constructor; [unfold expAsc, expLe in *; lia|].
      eapply Forall_impl; [exact Hx|]. unfold expAsc, expLe in *. intros; lia.
    + constructor; [exact IH|].
      eapply Permutation_Forall; [symmetry; apply insertBy_Permutation|].
      constructor; [unfold expAsc, expLe in *; lia | exact Hx].
Qed.

Lemma orderBy_expAsc_sorted l : StronglySorted expLe (orderBy expAsc l).
Proof.
  induction l as [|x xs IH]; unfold orderBy in *; simpl.
  - constructor.
  - apply insertBy_expAsc_sorted, IH.
Qed.

(** X1. [selectAllValidKeys] reads the clock once and returns, with [now]
    the second read, exactly the rows with [exp > now], each as often as
    the table holds it, in ascending order of [exp]; the database is left
    as it was. *)
Theorem selectAllValidKeys_all_valid_ascending (w : World) :
  let now := snapshot w in
  let rows := result selectAllValidKeys w in
  Permutation rows (List.filter (fun r => now <? exp r) (keys (db w))) /\
  StronglySorted expLe rows /\
  (forall r, In r rows <-> In r (keys (db w)) /\ now < exp r) /\
  db (after selectAllValidKeys w) = db w.
Proof.
  intros now rows. subst rows. unfold result, after.
  rewrite selectAllValidKeys_run. cbn [fst snd]. fold now.
  assert (P : Permutation (sqlAllValid now (keys (db w)))
                (List.filter (fun r => now <? exp r) (keys (db w)))).
  { unfold sqlAllValid. apply orderBy_Permutation. }
  split; [exact P|]. split; [apply orderBy_expAsc_sorted|]. split; [|reflexivity].
  intros r. split.
  - intros H. apply (Permutation_in _ P) in H. apply filter_In in H as [H1 H2].
    split; [exact H1 | lia].
  - intros [H1 H2]. apply (Permutation_in _ (Permutation_sym P)).
    apply filter_In. split; [exact H1 | lia].
Qed.

(** ** The queries agree with one another *)

Lemma existsb_active_or_expired t rows :
  sqlHasActive t rows = false /\ sqlHasExpired t rows = false <-> rows = [].
Proof.
  split.
  - intros [Ha He]. destruct rows as [|x xs]; [reflexivity|]. exfalso.
    unfold sqlHasActive, sqlHasExpired in *. simpl in *.
    apply orb_false_iff in Ha as [Ha _]. apply orb_false_iff in He as [He _].
    unfold isActiveAt, isExpiredAt in *. lia.
  - intros ->. split; reflexivity.
Qed.

(** X2. Evaluated in the same second, the queries tell one story:
    [hasActiveKey] is true exactly when [selectOneKey] finds an active
    row, [hasExpiredKey] exactly when it finds an expired one; the active
    row it finds is the first row of [selectAllValidKeys]; both existence
    checks are false exactly when [countKeys] is 0; and no row is returned
    both as active and as expired. *)
Theorem store_queries_agree (w : World) :
  (result hasActiveKey w = true <-> exists r, result (selectOneKey false) w = Some r) /\
  (result hasExpiredKey w = true <-> exists r, result (selectOneKey true) w = Some r) /\
  result (selectOneKey false) w = head (result selectAllValidKeys w) /\
  (result hasActiveKey w = false /\ result hasExpiredKey w = false <->
   result countKeys w = 0) /\
  (forall r, result (selectOneKey false) w = Some r ->
             result (selectOneKey true) w <> Some r).
Proof.
  unfold result.
  rewrite hasActiveKey_run, hasExpiredKey_run, !selectOneKey_run,
    selectAllValidKeys_run, countKeys_run. cbn [fst].
  set (now := snapshot w). set (rows := keys (db w)).
  assert (Hsel : forall flag r, sqlSelectOne flag now rows = Some r ->
                   In r rows /\ qualifies flag now r).
  { intros flag r H. apply sqlSelectOne_Some in H. split.
    - eapply Selected_In; eassumption.
    - destruct H as (? & ? & _ & Hq & _). exact Hq. }
  split; [|split; [|split; [|split]]].
  - split; [apply sqlHasActive_selects|].
    intros [r H]. apply Hsel in H. apply sqlHasActive_true. exists r. exact H.
  - split; [apply sqlHasExpired_selects|].
    intros [r H]. apply Hsel in H. apply sqlHasExpired_true. exists r. exact H.
  - reflexivity.
  - rewrite existsb_active_or_expired. destruct rows; simpl; split;
      intros H; try reflexivity; try discriminate; lia.
  - intros r Ha He. apply Hsel in Ha as [_ Ha]. apply Hsel in He as [_ He].
    simpl in Ha, He. lia.
Qed.

(** ** Rowids are fresh and stay in order *)

Lemma maxRowid_ge rows r : In r rows -> kid r <= maxRowid rows.
Proof.
  induction rows as [|x xs IH]; simpl; [intros []|].
  intros [<- | H]; [lia | specialize (IH H); lia].
Qed.

Lemma nextRowid_gt d r : In r (keys d) -> kid r < nextRowid d.
Proof. intros H. apply maxRowid_ge in H. unfold nextRowid. lia. Qed.

Lemma StronglySorted_snoc (l : list Z) (k : Z) :
  StronglySorted Z.lt l -> Forall (fun x => x < k) l -> StronglySorted Z.lt (l ++ [k]).
Proof.
  induction 1 as [|x xs Hs IH Hx]; intros Hk; simpl.
  - constructor; constructor.
  - apply Forall_cons_1 in Hk as [Hxk Hk].
    constructor; [apply IH, Hk|].
    apply Forall_app. split; [exact Hx | constructor; [exact Hxk | constructor]].
Qed.

Lemma StronglySorted_lt_NoDup (l : list Z) : StronglySorted Z.lt l -> List.NoDup l.
Proof.
  induction 1 as [|x xs Hs IH Hx]; constructor; [|exact IH].
  intros Hin. rewrite List.Forall_forall in Hx. specialize (Hx x Hin). lia.
Qed.

Lemma Preserves_ReadOnly P {A} (m : M A) : ReadOnly m -> Preserves P m.
Proof. intros H w Hw. rewrite H. exact Hw. Qed.

Lemma Preserves_ret P {A} (a : A) : Preserves P (mret a).
Proof. intros w Hw. exact Hw. Qed.

Lemma Preserves_bind P {A B} (m : M A) (f : A -> M B) :
  Preserves P m -> (forall a, Preserves P (f a)) -> Preserves P (m ≫= f).
Proof. intros Hm Hf w Hw. rewrite after_bind. apply Hf, Hm, Hw. Qed.

Lemma Preserves_tryBind P {A B} (m : M (Try A)) (k : A -> M (Try B)) :
  Preserves P m -> (forall a, Preserves P (k a)) -> Preserves P (tryBind m k).
Proof.
  intros Hm Hk. apply Preserves_bind; [exact Hm|].
  intros [a | message]; [apply Hk | apply Preserves_ret].
Qed.

Lemma Preserves_tryCatch P {A} (body : M (Try A)) (handler : string -> M A) :
  Preserves P body -> (forall message, Preserves P (handler message)) ->
  Preserves P (tryCatch body handler).
Proof.
  intros Hb Hh. apply Preserves_bind; [exact Hb|].
  intros [a | message]; [apply Preserves_ret | apply Hh].
Qed.

Lemma Preserves_insertKey pem e : Preserves IncreasingDb (insertKey pem e).
Proof.
  intros w Hw. unfold IncreasingDb, after, insertKey.
  destruct (tableFull (db w)); [exact Hw|]. cbn [snd withDb db keys].
  rewrite map_app. cbn [map kid]. apply StronglySorted_snoc; [exact Hw|].
  apply List.Forall_forall. intros k Hk. apply in_map_iff in Hk as (r & <- & Hr).
  apply nextRowid_gt, Hr.
Qed.

Create HintDb inv discriminated.
#[local] Hint Resolve Preserves_ret Preserves_insertKey : inv.
#[local] Hint Extern 2 (Preserves _ (_ ≫= _)) => apply Preserves_bind; [|intros ?] : inv.
#[local] Hint Extern 2 (Preserves _ (tryBind _ _)) => apply Preserves_tryBind; [|intros ?] : inv.
#[local] Hint Extern 2 (Preserves _ (tryCatch _ _)) =>
  apply Preserves_tryCatch; [|intros ?] : inv.
#[local] Hint Extern 3 (Preserves _ (if ?b then _ else _)) => destruct b : inv.
#[local] Hint Extern 3 (Preserves _ (match ?x with [] => _ | _ :: _ => _ end)) =>
  destruct x : inv.
#[local] Hint Extern 3 (Preserves _ (match ?x with Some _ => _ | None => _ end)) =>
  destruct x : inv.
#[local] Hint Extern 9 (Preserves _ _) => apply Preserves_ReadOnly; auto with store : inv.

Lemma Preserves_generateAndStoreRsaKey ttl :
  Preserves IncreasingDb (generateAndStoreRsaKey ttl).
Proof. unfold generateAndStoreRsaKey. auto 10 with inv. Qed.
#[local] Hint Resolve Preserves_generateAndStoreRsaKey : inv.

Lemma Preserves_ensureSeedKeys : Preserves IncreasingDb ensureSeedKeys.
Proof. unfold ensureSeedKeys. auto 10 with inv. Qed.
Lemma Preserves_ensureActiveKeyPresent : Preserves IncreasingDb ensureActiveKeyPresent.
Proof. unfold ensureActiveKeyPresent. auto 10 with inv. Qed.
Lemma Preserves_ensureExpiredKeyPresent : Preserves IncreasingDb ensureExpiredKeyPresent.
Proof. unfold ensureExpiredKeyPresent. auto 10 with inv. Qed.
#[local] Hint Resolve Preserves_ensureSeedKeys Preserves_ensureActiveKeyPresent
  Preserves_ensureExpiredKeyPresent : inv.

Lemma Preserves_jwksHandler req res : Preserves IncreasingDb (jwksHandler req res).
Proof. unfold jwksHandler. auto 12 with inv. Qed.

Lemma Preserves_authHandler req res : Preserves IncreasingDb (authHandler req res).
Proof. unfold authHandler. auto 12 with inv. Qed.

Lemma Preserves_dispatch P layers :
  Forall (PreservesLayer P) layers -> forall req res, Preserves P (dispatch layers req res).
Proof.
  induction 1 as [|mw rest Hmw _ IH]; intros req res; simpl.
  - apply Preserves_ret.
  - apply Preserves_bind; [apply Hmw|].
    intros [r | r]; [apply Preserves_ret | apply IH].
Qed.

Lemma Preserves_stack : Forall (PreservesLayer IncreasingDb) stack.
Proof.
  pose proof Preserves_jwksHandler. pose proof Preserves_authHandler.
  unfold stack.
  repeat (apply Forall_cons_2 || apply Forall_nil_2); intros req res;
    unfold expressJson, cors, all, methodGuard, get, post, use, notFound;
    destruct (bodyParse req); auto 10 with inv.
Qed.

(** X3. Unless the table is full, [insertKey] stores the row at the end
    of the table under a rowid greater than that of every stored row and
    than every rowid handed out before, and no greater than the last
    rowid, 2^63 - 1. What it returns is that rowid as a number: the rowid
    itself below 2^53, the nearest number beyond. On a full table it
    throws and changes nothing. Hence a table whose rowids increase keeps
    increasing rowids through startup and through any request, and no two
    of its rows share a [kid]. *)
Theorem kids_fresh_and_increasing :
  (forall pem e w,
     let k := nextRowid (db w) in
     let w' := after (insertKey pem e) w in
     (tableFull (db w) = false ->
      (forall r, In r (keys (db w)) -> kid r < k) /\
      sqlite_sequence (db w) < k <= lastRowid /\
      keys (db w') = keys (db w) ++ [mkRow k pem e] /\
      sqlite_sequence (db w') = k /\
      result (insertKey pem e) w = Returned (toNumber k) /\
      (k < 2 ^ 53 -> result (insertKey pem e) w = Returned k)) /\
     (tableFull (db w) = true ->
      result (insertKey pem e) w = Thrown SQLITE_FULL /\ w' = w)) /\
  (forall req w, KidsIncreasing w -> KidsIncreasing (after (app req) w)) /\
  (forall w, KidsIncreasing w -> KidsIncreasing (after startup w)) /\
  (forall w, KidsIncreasing w -> List.NoDup (kids w)).
Proof.
  split; [|split; [|split]].
  - intros pem e w k w'. subst k w'. unfold result, after, insertKey.
    split; intros Hfull; rewrite Hfull; [|split; reflexivity].
    cbn [fst snd withDb db keys sqlite_sequence].
    apply tableFull_Room in Hfull. unfold Room in Hfull.
    split; [intros r Hr; apply nextRowid_gt, Hr|].
    split; [unfold nextRowid; lia|]. split; [reflexivity|]. split; [reflexivity|].
    split; [reflexivity|]. intros Hk. f_equal. apply toNumber_exact.
    pose proof (maxRowid_nonneg (keys (db w))). unfold nextRowid in *. lia.
  - intros req w H. apply (Preserves_dispatch _ _ Preserves_stack req freshResponse w H).
  - intros w H. apply (Preserves_ensureSeedKeys w H).
  - intros w H. apply StronglySorted_lt_NoDup, H.
Qed.

Lemma kids_fresh_and_increasing_witness :
  KidsIncreasing (after (app (POST "/auth" {["expired" := QString "1"]})) seeded) /\
  KidsIncreasing seeded /\
  List.NoDup (kids seeded).
Proof.
  destruct kids_fresh_and_increasing as (_ & Happ & Hstart & Hnodup).
  assert (H0 : KidsIncreasing (worldAt 1700000000000 emptyDb)) by constructor.
  assert (H1 : KidsIncreasing seeded) by (apply Hstart; exact H0).
  split; [apply Happ; exact H1 | split; [exact H1 | exact (Hnodup _ H1)]].
Defined.

(** ** Startup seeding *)

Lemma ensureSeedKeys_nonempty w :
  keys (db w) <> [] -> ensureSeedKeys w = (Returned tt, w).
Proof.
  intros H. unfold ensureSeedKeys, mbind, M_bind. rewrite countKeys_run.
  destruct (keys (db w)) as [|x xs]; [congruence|].
  replace (0 <? Z.of_nat (length (x :: xs))) with true; [reflexivity|].
  symmetry. apply Z.ltb_lt. simpl. lia.
Qed.

Lemma ensureSeedKeys_empty w :
  keys (db w) = [] ->
  ensureSeedKeys w =
  if tableFull (db w) then (Thrown SQLITE_FULL, spent w)
  else if tableFull (db (stored (inject_Z (60 * 60)) w))
       then (Thrown SQLITE_FULL, spent (stored (inject_Z (60 * 60)) w))
       else (Returned tt, stored (inject_Z (-5 * 60)) (stored (inject_Z (60 * 60)) w)).
Proof.
  intros H. unfold ensureSeedKeys, tryBind, mbind, M_bind. rewrite countKeys_run, H.
  cbv beta iota. change (0 <? Z.of_nat (length (@nil Row))) with false. cbv beta iota.
  rewrite generateAndStoreRsaKey_run. unfold generated.
  destruct (tableFull (db w)); [reflexivity|]. cbv beta iota.
  rewrite generateAndStoreRsaKey_run. unfold generated.
  destruct (tableFull (db (stored (inject_Z (60 * 60)) w))); reflexivity.
Qed.

(** X4. On an empty table with room for two rows [ensureSeedKeys] stores
    two rows, in this order: one expiring an hour after the second it
    reads first, one that expired five minutes before the second it reads
    next, under consecutive rowids; with the clock standing still the
    first is active and the second expired. On an empty table that is
    full it throws and stores nothing. On a table that holds any row it
    does nothing, so running it again after itself changes the database
    no more. *)
Theorem ensureSeedKeys_seeds_once (w : World) :
  (keys (db w) = [] -> Room 2 (db w) ->
   let k := Z.max (sqlite_sequence (db w)) 0 + 1 in
   result ensureSeedKeys w = Returned tt /\
   keys (db (after ensureSeedKeys w)) =
     [ mkRow k (RsaPrivateKey (keypairs w)) (snapshot w + 3600);
       mkRow (k + 1) (RsaPrivateKey (S (keypairs w))) (snapshot (tick w) - 300) ] /\
   forall now, Steady w now ->
     sqlHasActive now (keys (db (after ensureSeedKeys w))) = true /\
     sqlHasExpired now (keys (db (after ensureSeedKeys w))) = true) /\
  (keys (db w) = [] -> tableFull (db w) = true ->
   result ensureSeedKeys w = Thrown SQLITE_FULL /\ db (after ensureSeedKeys w) = db w) /\
  (keys (db w) <> [] -> ensureSeedKeys w = (Returned tt, w)) /\
  db (after ensureSeedKeys (after ensureSeedKeys w)) = db (after ensureSeedKeys w).
Proof.
  assert (Hempty : keys (db w) = [] -> Room 2 (db w) ->
    ensureSeedKeys w =
      (Returned tt, stored (inject_Z (-5 * 60)) (stored (inject_Z (60 * 60)) w))).
  { intros H Hroom. rewrite (ensureSeedKeys_empty w H).
    rewrite (Room_not_full 2) by (try exact Hroom; lia).
    rewrite (Room_not_full 1) by (try apply (Room_stored 2), Hroom; lia).
    reflexivity. }
  assert (Hkeys : keys (db w) = [] -> Room 2 (db w) ->
    keys (db (after ensureSeedKeys w)) =
      [ mkRow (Z.max (sqlite_sequence (db w)) 0 + 1) (RsaPrivateKey (keypairs w))
              (snapshot w + 3600);
        mkRow (Z.max (sqlite_sequence (db w)) 0 + 1 + 1) (RsaPrivateKey (S (keypairs w)))
              (snapshot (tick w) - 300) ]).
  { intros H Hroom. unfold after. rewrite (Hempty H Hroom).
    cbn [snd stored db keys sqlite_sequence keypairs]. unfold nextRowid.
    cbn [keys sqlite_sequence]. rewrite H, !Qfloor_Z.
    change (snapshot (stored (inject_Z (60 * 60)) w)) with (snapshot (tick w)).
    rewrite !jsAdd_snapshot by lia.
    change (@nil Row ++ ?l) with l. cbn [app maxRowid foldr kid].
    repeat f_equal; lia. }
  split; [|split; [|split]].
  - intros H Hroom k. split; [unfold result; rewrite (Hempty H Hroom); reflexivity|].
    split; [exact (Hkeys H Hroom)|].
    intros now Hs. rewrite (Hkeys H Hroom).
    rewrite (Steady_snapshot _ _ _ Hs (Later_refl w)),
      (Steady_snapshot _ _ _ Hs (Later_tick _ _ (Later_refl w))).
    unfold sqlHasActive, sqlHasExpired, isActiveAt, isExpiredAt. cbn [existsb exp].
    split; apply orb_true_iff; [left | right; apply orb_true_iff; left]; lia.
  - intros H Hfull. unfold result, after. rewrite (ensureSeedKeys_empty w H), Hfull.
    split; reflexivity.
  - intros H. apply (ensureSeedKeys_nonempty w H).
  - destruct (decide (keys (db w) = [])) as [E | Hne].
    + unfold after at 2 3. rewrite (ensureSeedKeys_empty w E).
      destruct (tableFull (db w)) eqn:F1; cbn [snd].
      * unfold after. rewrite (ensureSeedKeys_empty (spent w) E).
        change (db (spent w)) with (db w). rewrite F1. reflexivity.
      * destruct (tableFull (db (stored (inject_Z (60 * 60)) w))); cbn [snd];
          unfold after; rewrite ensureSeedKeys_nonempty; try reflexivity;
          cbn [spent stored db keys]; intros Hnil;
          repeat (apply app_eq_nil in Hnil as [_ Hnil] || discriminate Hnil).
    + unfold after. rewrite (ensureSeedKeys_nonempty w Hne). cbn [snd].
      rewrite (ensureSeedKeys_nonempty w Hne). reflexivity.
Qed.

Lemma ensureSeedKeys_seeds_once_witness :
  keys (db (after ensureSeedKeys (worldAt 1700000000999 emptyDb))) =
    [ mkRow 1 (RsaPrivateKey 0) 1700003600; mkRow 2 (RsaPrivateKey 1) 1699999700 ] /\
  ensureSeedKeys seeded = (Returned tt, seeded).
Proof.
  split.
  - apply (proj1 (ensureSeedKeys_seeds_once (worldAt 1700000000999 emptyDb)) eq_refl).
    unfold Room, lastRowid. simpl. lia.
  - apply (proj1 (proj2 (proj2 (ensureSeedKeys_seeds_once seeded)))). discriminate.
Defined.

(** ** What the ensure-present policies establish *)

Lemma sqlHasActive_app t l1 l2 :
  sqlHasActive t (l1 ++ l2) = sqlHasActive t l1 || sqlHasActive t l2.
Proof. apply existsb_app. Qed.

Lemma sqlHasExpired_app t l1 l2 :
  sqlHasExpired t (l1 ++ l2) = sqlHasExpired t l1 || sqlHasExpired t l2.
Proof. apply existsb_app. Qed.

Lemma sqlHasActive_earlier t t' rows :
  t' <= t -> sqlHasActive t rows = true -> sqlHasActive t' rows = true.
Proof.
  intros Hle H. apply sqlHasActive_true in H as (r & Hr & H).
  apply sqlHasActive_true. exists r. split; [exact Hr | lia].
Qed.

Lemma sqlHasExpired_later t t' rows :
  t <= t' -> sqlHasExpired t rows = true -> sqlHasExpired t' rows = true.
Proof.
  intros Hle H. apply sqlHasExpired_true in H as (r & Hr & H).
  apply sqlHasExpired_true. exists r. split; [exact Hr | lia].
Qed.

(** X5. Unless it throws, [ensureActiveKeyPresent] leaves a table that
    holds a row that is active at every second [t] up to the one the
    check read and less than an hour after the one the generation read;
    it adds at most one row, and when it adds one, that row expires an
    hour after the second the generation read. Unless it throws,
    [ensureExpiredKeyPresent] leaves a table that holds a row that is
    expired at every second [t] from the one the check read on and not
    more than a minute before the one the generation read; the row it
    adds, if any, expired a minute before that read. Either throws
    exactly when the table is full and holds no row of its kind at the
    second the check read, and then leaves the database as it was. *)
Theorem ensure_policies_establish (w : World) :
  let gen := secondAt w (S (ticks w)) in
  (activeThrows w = false ->
   result ensureActiveKeyPresent w = Returned tt /\
   forall t, t <= snapshot w -> t < gen + 3600 ->
     sqlHasActive t (keys (db (after ensureActiveKeyPresent w))) = true) /\
  (expiredThrows w = false ->
   result ensureExpiredKeyPresent w = Returned tt /\
   forall t, snapshot w <= t -> gen - 60 <= t ->
     sqlHasExpired t (keys (db (after ensureExpiredKeyPresent w))) = true) /\
  (keys (db (after ensureActiveKeyPresent w)) = keys (db w) \/
   keys (db (after ensureActiveKeyPresent w)) =
     keys (db w) ++ [mkRow (nextRowid (db w)) (RsaPrivateKey (keypairs w)) (gen + 3600)]) /\
  (keys (db (after ensureExpiredKeyPresent w)) = keys (db w) \/
   keys (db (after ensureExpiredKeyPresent w)) =
     keys (db w) ++ [mkRow (nextRowid (db w)) (RsaPrivateKey (keypairs w)) (gen - 60)]) /\
  (activeThrows w = true ->
   result ensureActiveKeyPresent w = Thrown SQLITE_FULL /\
   db (after ensureActiveKeyPresent w) = db w /\
   tableFull (db w) = true /\ sqlHasActive (snapshot w) (keys (db w)) = false) /\
  (expiredThrows w = true ->
   result ensureExpiredKeyPresent w = Thrown SQLITE_FULL /\
   db (after ensureExpiredKeyPresent w) = db w /\
   tableFull (db w) = true /\ sqlHasExpired (snapshot w) (keys (db w)) = false).
Proof.
  intros gen.
  assert (Hgen : snapshot (tick w) = gen) by reflexivity.
  split; [|split; [|split; [|split; [|split]]]].
  - intros Hroom. unfold result. rewrite ensureActiveKeyPresent_ensured, Hroom.
    split; [reflexivity|].
    change (after ensureActiveKeyPresent w) with (ensuredActive w).
    rewrite (ensuredActive_eq _ Hroom).
    intros t H1 H2. destruct (sqlHasActive (snapshot w) (keys (db w))) eqn:E.
    + apply (sqlHasActive_earlier _ _ _ H1 E).
    + cbn [stored db keys tick]. rewrite sqlHasActive_app. apply orb_true_iff. right.
      unfold sqlHasActive, isActiveAt. cbn [existsb exp].
      rewrite Qfloor_Z, jsAdd_snapshot, Hgen by lia. apply orb_true_iff. left. lia.
  - intros Hroom. unfold result. rewrite ensureExpiredKeyPresent_ensured, Hroom.
    split; [reflexivity|].
    change (after ensureExpiredKeyPresent w) with (ensuredExpired w).
    rewrite (ensuredExpired_eq _ Hroom).
    intros t H1 H2. destruct (sqlHasExpired (snapshot w) (keys (db w))) eqn:E.
    + apply (sqlHasExpired_later _ _ _ H1 E).
    + cbn [stored db keys tick]. rewrite sqlHasExpired_app. apply orb_true_iff. right.
      unfold sqlHasExpired, isExpiredAt. cbn [existsb exp].
      rewrite Qfloor_Z, jsAdd_snapshot, Hgen by lia. apply orb_true_iff. left. lia.
  - unfold after. rewrite ensureActiveKeyPresent_run. cbn [snd].
    destruct (sqlHasActive (snapshot w) (keys (db w))); [left; reflexivity|].
    unfold generated. destruct (tableFull _); [left; reflexivity | right].
    cbn [stored db keys tick keypairs]. rewrite Qfloor_Z, jsAdd_snapshot, Hgen by lia.
    reflexivity.
  - unfold after. rewrite ensureExpiredKeyPresent_run. cbn [snd].
    destruct (sqlHasExpired (snapshot w) (keys (db w))); [left; reflexivity|].
    unfold generated. destruct (tableFull _); [left; reflexivity | right].
    cbn [stored db keys tick keypairs]. rewrite Qfloor_Z, jsAdd_snapshot, Hgen by lia.
    reflexivity.
  - intros Hthrows. destruct (activeThrows_true w Hthrows) as (Hfull & Hdb & Hnone).
    unfold result. rewrite ensureActiveKeyPresent_ensured, Hthrows. auto.
  - intros Hthrows. destruct (expiredThrows_true w Hthrows) as (Hfull & Hdb & Hnone).
    unfold result. rewrite ensureExpiredKeyPresent_ensured, Hthrows. auto.
Qed.

Lemma ensure_policies_establish_witness :
  let w := leapingClock (worldAt 0 emptyDb) in
  sqlHasActive 0 (keys (db (after ensureActiveKeyPresent w))) = true /\
  sqlHasExpired 4000 (keys (db (after ensureExpiredKeyPresent w))) = true /\
  result ensureActiveKeyPresent fullAndEmpty = Thrown SQLITE_FULL.
Proof.
  intros w. split; [|split].
  - apply (proj2 (proj1 (ensure_policies_establish w) eq_refl) 0); reflexivity.
  - apply (proj2 (proj1 (proj2 (ensure_policies_establish w)) eq_refl) 4000); discriminate.
  - apply (proj1 (proj2 (proj2 (proj2 (proj2 (ensure_policies_establish fullAndEmpty)))))).
    reflexivity.
Defined.

(** ** Routing *)

Lemma app_not_found req w :
  bodyParse req = BodyAccepted ->
  method req <> "OPTIONS" ->
  isJwksPath (path req) = false -> pathMatches "/auth" (path req) = false ->
  app req w = (notFoundResponse req, w).
Proof.
  intros Hb Hopt Hj Ha. rewrite app_past_cors by assumption.
  unfold isJwksPath in Hj. apply orb_false_iff in Hj as [H1 H2].
  unfold stack. cbn [dispatch tail].
  unfold all, get, post, use, notFound, mbind, M_bind, mret, M_ret.
  cbn [existsb]. rewrite H1, H2, Ha. cbn [orb]. rewrite !andb_false_r. reflexivity.
Qed.

(** The seven ways a request can go. *)
Lemma app_cases req w :
  (exists e, bodyParse req = BodyRejected e /\
             app req w = (errorPage req (errorStatus e) freshResponse, w)) \/
  bodyParse req = BodyAccepted /\
  (app req w = (sendStatus 204 corsResponse, w) \/
   (method req = "GET" /\ isJwksPath (path req) = true /\
    app req w = jwksHandler req corsResponse w) \/
   app req w = (notAllowed req "GET", w) \/
   (method req = "POST" /\ pathMatches "/auth" (path req) = true /\
    app req w = authHandler req corsResponse w) \/
   app req w = (notAllowed req "POST", w) \/
   app req w = (notFoundResponse req, w)).
Proof.
  destruct (bodyParse req) as [|e] eqn:Hb;
    [right; split; [reflexivity|] | left; exists e; auto using app_rejected].
  destruct (decide (method req = "OPTIONS")) as [Hopt | Hopt];
    [left; apply app_options; assumption|].
  destruct (isJwksPath (path req)) eqn:Hj.
  - destruct (decide (method req = "GET")) as [Hget | Hget].
    + right. left. auto using app_get_jwks.
    + right. right. left. apply app_jwks_wrong_method; assumption.
  - destruct (pathMatches "/auth" (path req)) eqn:Ha.
    + destruct (decide (method req = "POST")) as [Hpost | Hpost].
      * right. right. right. left. auto using app_post_auth.
      * right. right. right. right. left. apply app_auth_wrong_method; assumption.
    + right. right. right. right. right. apply app_not_found; assumption.
Qed.

(** X6. The application routes a request as follows. A body that the
    JSON body parser rejects: its error page, whatever the method and
    the path. Otherwise OPTIONS: 204 from the CORS middleware, on any
    path. A JWKS path: the JWKS handler for GET, 405 with [Allow: GET]
    for any other method, HEAD included. [/auth]: the auth handler for
    POST, 405 with [Allow: POST] otherwise. Any other path: 404
    [{error: "not found"}]. Only the two handlers ever touch the world,
    and no answer to HEAD has a body. *)
Theorem app_routing (req : Request) (w : World) :
  app req w =
  match bodyParse req with
  | BodyRejected e => (errorPage req (errorStatus e) freshResponse, w)
  | BodyAccepted =>
      if bool_decide (method req = "OPTIONS") then (sendStatus 204 corsResponse, w)
      else if isJwksPath (path req) then
        if bool_decide (method req = "GET") then jwksHandler req corsResponse w
        else (notAllowed req "GET", w)
      else if pathMatches "/auth" (path req) then
        if bool_decide (method req = "POST") then authHandler req corsResponse w
        else (notAllowed req "POST", w)
      else (notFoundResponse req, w)
  end /\
  (method req = "HEAD" -> body (result (app req) w) = NoBody /\ after (app req) w = w).
Proof.
  assert (Hroute : app req w =
    match bodyParse req with
    | BodyRejected e => (errorPage req (errorStatus e) freshResponse, w)
    | BodyAccepted =>
        if bool_decide (method req = "OPTIONS") then (sendStatus 204 corsResponse, w)
        else if isJwksPath (path req) then
          if bool_decide (method req = "GET") then jwksHandler req corsResponse w
          else (notAllowed req "GET", w)
        else if pathMatches "/auth" (path req) then
          if bool_decide (method req = "POST") then authHandler req corsResponse w
          else (notAllowed req "POST", w)
        else (notFoundResponse req, w)
    end).
  { destruct (bodyParse req) as [|e] eqn:Hb; [|apply app_rejected, Hb].
    case_bool_decide as Hopt; [apply app_options; assumption|].
    destruct (isJwksPath (path req)) eqn:Hj.
    - case_bool_decide as Hget.
      + apply app_get_jwks; assumption.
      + apply app_jwks_wrong_method; assumption.
    - destruct (pathMatches "/auth" (path req)) eqn:Ha.
      + case_bool_decide as Hpost.
        * apply app_post_auth; assumption.
        * apply app_auth_wrong_method; assumption.
      + apply app_not_found; assumption. }
  split; [exact Hroute|].
  intros Hhead. unfold result, after. rewrite Hroute, Hhead.
  replace (bool_decide ("HEAD" = "OPTIONS")) with false by reflexivity.
  replace (bool_decide ("HEAD" = "GET")) with false by reflexivity.
  replace (bool_decide ("HEAD" = "POST")) with false by reflexivity.
  assert (Hbody : forall b, sentBody req b = NoBody)
    by (intros b; unfold sentBody; rewrite Hhead; reflexivity).
  destruct (bodyParse req); [destruct (isJwksPath _); [|destruct (pathMatches _ _)]|];
    cbn [fst snd]; (split; [|reflexivity]).
  - exact (Hbody (JsonError "not allowed")).
  - exact (Hbody (JsonError "not allowed")).
  - exact (Hbody (JsonError "not found")).
  - exact (Hbody HtmlError).
Qed.

Example head_jwks_is_rejected :
  let req := {| method := "HEAD"; path := "/JWKS/"; query := ∅;
                bodyParse := BodyAccepted; fresh := stale |} in
  result (app req) seeded = notAllowed req "GET" /\ body (notAllowed req "GET") = NoBody.
Proof. split; reflexivity. Qed.

(** ** Headers of the answers *)

Lemma jwksHandler_shape req res w :
  exists b c, (c = 200 \/ c = 404 \/ c = 500) /\
              result (jwksHandler req res) w = json req b (setStatus c res).
Proof.
  unfold result. rewrite jwksHandler_run. cbv zeta.
  destruct (activeThrows w);
    [|destruct (sqlAllValid _ _) as [|r rest];
      [destruct (activeThrows _); [|destruct (sqlAllValid _ _) as [|r rest]]|]];
    cbn [fst]; unfold jwksOk, jwksNone, serverError; eauto 6.
Qed.

Lemma authHandler_shape req res w :
  exists b c, (c = 200 \/ c = 401 \/ c = 500) /\
              result (authHandler req res) w = json req b (setStatus c res).
Proof.
  unfold result. destruct (wantExpired req) as [flag | message] eqn:Hflag;
    [|rewrite (authHandler_thrown _ _ _ _ Hflag); unfold serverError; eauto 6].
  rewrite (authHandler_run _ _ _ _ Hflag). cbv zeta.
  destruct (ensureThrows _ w);
    [|destruct (sqlSelectOne _ _ _) as [row|];
      [|destruct (ensureThrows _ _); [|destruct (sqlSelectOne _ _ _) as [row|]]]];
    cbn [fst]; unfold authOk, authNone, serverError; eauto 6.
Qed.

(** X7. Every answer to a request whose body the JSON body parser accepts
    carries the three CORS headers; every such answer but the 204 to
    OPTIONS and the 304 to a request whose validators match has the JSON
    content type, these two have no content type, and the [Allow] header
    is set on the 405 answers and on no other. The error page for a body
    the parser rejects is HTML and carries neither the CORS headers nor
    [Allow]: the parser runs before the CORS middleware. *)
Theorem answers_carry_cors_headers (req : Request) (w : World) :
  let resp := result (app req) w in
  (bodyParse req = BodyAccepted ->
   HasCorsHeaders resp /\
   headers resp !! "Content-Type" =
     (if bool_decide (status resp = 204) || bool_decide (status resp = 304) then None
      else Some "application/json; charset=utf-8") /\
   (status resp = 405 <-> is_Some (headers resp !! "Allow"))) /\
  (forall e, bodyParse req = BodyRejected e ->
   status resp = errorStatus e /\
   headers resp !! "Content-Type" = Some "text/html; charset=utf-8" /\
   headers resp !! "Access-Control-Allow-Origin" = None /\
   headers resp !! "Access-Control-Allow-Headers" = None /\
   headers resp !! "Access-Control-Allow-Methods" = None /\
   headers resp !! "Allow" = None).
Proof.
  intros resp. subst resp.
  assert (Hjson : forall b c,
    (c = 200 \/ c = 401 \/ c = 404 \/ c = 500) ->
    let resp := json req b (setStatus c corsResponse) in
    HasCorsHeaders resp /\
    headers resp !! "Content-Type" =
      (if bool_decide (status resp = 204) || bool_decide (status resp = 304) then None
       else Some "application/json; charset=utf-8") /\
    (status resp = 405 <-> is_Some (headers resp !! "Allow"))).
  { intros b c Hc resp. subst resp. unfold HasCorsHeaders, json.
    destruct (isFresh req (status (setStatus c corsResponse)) b);
      cbn [status headers setStatus].
    - repeat split; try reflexivity; [discriminate|].
      intros [x Hx]. vm_compute in Hx. discriminate.
    - repeat split; try reflexivity.
      + destruct Hc as [-> | [-> | [-> | ->]]]; reflexivity.
      + intros ->. destruct Hc as [? | [? | [? | ?]]]; discriminate.
      + intros [x Hx]. vm_compute in Hx. discriminate. }
  assert (H405 : forall h,
    let resp := notAllowed req h in
    HasCorsHeaders resp /\
    headers resp !! "Content-Type" =
      (if bool_decide (status resp = 204) || bool_decide (status resp = 304) then None
       else Some "application/json; charset=utf-8") /\
    (status resp = 405 <-> is_Some (headers resp !! "Allow"))).
  { intros h resp. subst resp. unfold HasCorsHeaders.
    repeat split; try reflexivity. exists h. reflexivity. }
  unfold result. split.
  - intros Hb.
    destruct (app_cases req w) as [(e & He & _) | (_ & H)]; [congruence|].
    destruct H as [E | [(_ & _ & E) | [E | [(_ & _ & E) | [E | E]]]]]; rewrite E.
    + cbn [fst]. unfold HasCorsHeaders. cbn [status headers sendStatus].
      repeat split; try reflexivity; try congruence; try discriminate.
      intros [x Hx]. vm_compute in Hx. discriminate.
    + destruct (jwksHandler_shape req corsResponse w) as (b & c & Hc & E').
      unfold result in E'. rewrite E'. apply Hjson. tauto.
    + apply H405.
    + destruct (authHandler_shape req corsResponse w) as (b & c & Hc & E').
      unfold result in E'. rewrite E'. apply Hjson. tauto.
    + apply H405.
    + apply (Hjson (JsonError "not found") 404). auto.
  - intros e Hb. rewrite (app_rejected _ _ _ Hb). cbn [fst status headers errorPage].
    repeat split; reflexivity.
Qed.

Lemma answers_carry_cors_headers_witness :
  HasCorsHeaders (result (app (GET "/nowhere")) seeded) /\
  headers (result (app {| method := "POST"; path := "/auth"; query := ∅;
                          bodyParse := BodyRejected Malformed; fresh := stale |}) seeded)
    !! "Access-Control-Allow-Origin" = None.
Proof.
  split.
  - apply (proj1 (answers_carry_cors_headers (GET "/nowhere") seeded)). reflexivity.
  - apply (proj2 (answers_carry_cors_headers
                    {| method := "POST"; path := "/auth"; query := ∅;
                       bodyParse := BodyRejected Malformed; fresh := stale |} seeded) Malformed).
    reflexivity.
Defined.

(** ** The expired path under a clock that does not run backwards *)

Lemma snapshot_Later w v : Later w v -> snapshot v = secondAt w (ticks v).
Proof. intros [Hc _]. unfold snapshot, secondAt. rewrite Hc. reflexivity. Qed.

Lemma Monotone_snapshot w v v' :
  Monotone w -> Later w v -> Later w v' -> (ticks v <= ticks v')%nat ->
  snapshot v <= snapshot v'.
Proof.
  intros Hm Hv Hv' Hle. rewrite (snapshot_Later _ _ Hv), (snapshot_Later _ _ Hv').
  apply Hm; [apply Hv | exact Hle].
Qed.

Lemma ensuredExpired_expired_at_next_read w0 w :
  Monotone w0 -> Later w0 w -> expiredThrows w = false ->
  sqlHasExpired (snapshot (ensuredExpired w)) (keys (db (ensuredExpired w))) = true.
Proof.
  intros Hm Hl Hroom. rewrite (ensuredExpired_eq _ Hroom).
  destruct (sqlHasExpired (snapshot w) (keys (db w))) eqn:E.
  - refine (sqlHasExpired_later _ _ _ _ E).
    apply (Monotone_snapshot w0); auto using Later_tick. simpl. lia.
  - cbn [stored db keys tick]. rewrite sqlHasExpired_app. apply orb_true_iff. right.
    unfold sqlHasExpired, isExpiredAt. cbn [existsb exp].
    rewrite Qfloor_Z, jsAdd_snapshot by lia.
    apply orb_true_iff. left. apply Z.leb_le.
    assert (snapshot (tick w) <= snapshot (stored (inject_Z (-60)) (tick w))).
    { apply (Monotone_snapshot w0); auto using Later_tick, Later_stored. simpl. lia. }
    lia.
Qed.

(** X8. With a clock that does not run backwards, a POST on [/auth] that
    asks for the expired path, with a body that the JSON body parser
    accepts, is answered 200, never 401, unless the backfill throws (the
    table is full and holds no expired key). The token is signed with
    the key of a stored row whose [exp], as a number, is the token's
    [exp]; that [exp] is at most the token's [iat], and the header names
    the key ["key-expired-1"]. (A body that the parser rejects is
    answered with the parser's error, before the handler runs.) *)
Theorem expired_token_is_expired (req : Request) (w : World) :
  bodyParse req = BodyAccepted ->
  method req = "POST" ->
  pathMatches "/auth" (path req) = true ->
  wantExpired req = Returned true ->
  Monotone w ->
  expiredThrows w = false ->
  let resp := result (app req) w in
  exists token r,
    status resp = 200 /\
    body resp = JsonToken token token /\
    In r (keys (db (after (app req) w))) /\
    Jwt.signedBy token = key r /\
    Jwt.exp (Jwt.payload token) = expOf r /\
    exp r <= Jwt.iat (Jwt.payload token) /\
    Jwt.exp (Jwt.payload token) <= Jwt.iat (Jwt.payload token) /\
    Jwt.kid (Jwt.header token) = "key-expired-1".
Proof.
  intros Hb Hm Hpath Hflag Hmono Hroom resp. subst resp. unfold result, after.
  assert (Hhead : method req <> "HEAD") by (rewrite Hm; discriminate).
  rewrite app_post_auth by assumption. rewrite (authHandler_run _ _ _ _ Hflag). cbv zeta.
  cbn [ensured ensureThrows]. rewrite Hroom. set (w1 := ensuredExpired w).
  assert (Hl : Later w w1) by apply Later_ensuredExpired, Later_refl.
  pose proof (ensuredExpired_expired_at_next_read w w Hmono (Later_refl w) Hroom) as He.
  fold w1 in He. apply sqlHasExpired_selects in He as [r Hr]. rewrite Hr. cbn [fst snd].
  assert (Hq : In r (keys (db w1)) /\ exp r <= snapshot w1).
  { apply sqlSelectOne_Some in Hr. split; [eapply Selected_In; eassumption|].
    destruct Hr as (? & ? & _ & Hq & _). exact Hq. }
  destruct Hq as [Hin Hexp].
  assert (H1 : snapshot w1 <= snapshot (tick w1)).
  { apply (Monotone_snapshot w); auto using Later_tick. simpl. lia. }
  assert (H2 : snapshot w1 <= snapshot (tick (tick w1))).
  { apply (Monotone_snapshot w); auto using Later_tick. simpl. lia. }
  eexists _, r. unfold authOk. cbv zeta.
  rewrite json_body_post, json_status_post by exact Hm.
  cbn [status setStatus].
  split; [reflexivity|]. split; [reflexivity|].
  cbn [signJwt Jwt.signedBy Jwt.payload Jwt.header Jwt.exp Jwt.iat Jwt.kid keyObjectFromDbRow].
  split; [exact Hin|]. split; [reflexivity|]. split; [reflexivity|].
  split; [lia|]. split; [apply expOf_le; fold (snapshot (tick w1)); lia|].
  apply labelAt_expired. lia.
Qed.

Lemma expired_token_is_expired_witness :
  let req := POST "/auth" {["expired" := QString ""]} in
  let w := leapingClock seeded in
  exists token r,
    status (result (app req) w) = 200 /\
    body (result (app req) w) = JsonToken token token /\
    In r (keys (db (after (app req) w))) /\
    Jwt.signedBy token = key r /\
    Jwt.exp (Jwt.payload token) = expOf r /\
    exp r <= Jwt.iat (Jwt.payload token) /\
    Jwt.exp (Jwt.payload token) <= Jwt.iat (Jwt.payload token) /\
    Jwt.kid (Jwt.header token) = "key-expired-1".
Proof.
  intros req w.
  apply (expired_token_is_expired req w eq_refl eq_refl eq_refl eq_refl);
    [|reflexivity].
  intros i j _ Hij. unfold secondAt. cbn [w leapingClock clock].
  apply Z.div_le_mono; [lia|]. apply timeValue_mono. lia.
Defined.

(** ** When [/auth] answers 401 *)

(** X9. A POST on [/auth] is answered 401 only if, at the second read by
    the second selection, after both backfills, the table still holds no
    row that qualifies; the body then names the path asked for, [No
    active key available] or [No expired key available]. *)
Theorem auth_401_no_key (req : Request) (w : World) :
  method req = "POST" ->
  pathMatches "/auth" (path req) = true ->
  let resp := result (app req) w in
  let w' := after (app req) w in
  status resp = 401 ->
  exists flag,
    wantExpired req = Returned flag /\
    sqlSelectOne flag (lastRead w' 1) (keys (db w')) = None /\
    (forall r, In r (keys (db w')) -> ~ qualifies flag (lastRead w' 1) r) /\
    body resp = JsonError (if flag then "No expired key available"
                           else "No active key available").
Proof.
  intros Hm Hpath resp w'. subst resp w'. unfold result, after.
  assert (Hhead : method req <> "HEAD") by (rewrite Hm; discriminate).
  destruct (bodyParse req) as [|e] eqn:Hb;
    [|rewrite (app_rejected _ _ _ Hb); cbn [fst status errorPage];
      destruct e; discriminate].
  rewrite app_post_auth by assumption.
  destruct (wantExpired req) as [flag | message] eqn:Hflag;
    [|rewrite (authHandler_thrown _ _ _ _ Hflag); cbn [fst]; discriminate].
  rewrite (authHandler_run _ _ _ _ Hflag). cbv zeta.
  set (w1 := ensured flag w). set (w3 := ensured flag (tick w1)).
  destruct (ensureThrows flag w); [cbn [fst]; discriminate|].
  destruct (sqlSelectOne flag (snapshot w1) (keys (db w1))) as [row|];
    [|destruct (ensureThrows flag (tick w1)); [cbn [fst]; discriminate|];
      destruct (sqlSelectOne flag (snapshot w3) (keys (db w3))) as [row|] eqn:E3];
    cbn [fst snd]; rewrite ?authOk_status by exact Hm; intros Hst; try discriminate Hst.
  rewrite lastRead_tick. change (db (tick w3)) with (db w3).
  exists flag. split; [reflexivity|].
  split; [exact E3|]. split; [apply sqlSelectOne_None, E3|].
  unfold authNone. rewrite json_body_post by exact Hm. destruct flag; reflexivity.
Qed.

Lemma auth_401_no_key_witness :
  let req := POST "/auth" ∅ in
  let w := leapingClock (worldAt 0 emptyDb) in
  body (result (app req) w) = JsonError "No active key available".
Proof.
  intros req w.
  destruct (auth_401_no_key req w eq_refl eq_refl eq_refl) as (flag & Hflag & _ & _ & Hbody).
  injection Hflag as <-. exact Hbody.
Defined.

(** ** Requests while the clock stands still *)

Lemma Steady_Later w v now : Steady w now -> Later w v -> Steady v now.
Proof.
  intros Hs [Hc Ht] i Hi. unfold secondAt. rewrite Hc. apply Hs. lia.
Qed.

Lemma ensuredActive_noop w :
  sqlHasActive (snapshot w) (keys (db w)) = true -> ensuredActive w = tick w.
Proof.
  intros H. unfold ensuredActive, after. rewrite ensureActiveKeyPresent_run, H. reflexivity.
Qed.

Lemma ensuredExpired_noop w :
  sqlHasExpired (snapshot w) (keys (db w)) = true -> ensuredExpired w = tick w.
Proof.
  intros H. unfold ensuredExpired, after. rewrite ensureExpiredKeyPresent_run, H. reflexivity.
Qed.

Lemma sqlSelectOne_has flag t rows r :
  sqlSelectOne flag t rows = Some r ->
  (if flag then sqlHasExpired t rows else sqlHasActive t rows) = true.
Proof.
  intros H. apply sqlSelectOne_Some in H.
  pose proof (Selected_In _ _ _ _ H) as Hin.
  destruct H as (? & ? & _ & Hq & _).
  destruct flag; [apply sqlHasExpired_true | apply sqlHasActive_true]; exists r; auto.
Qed.

Lemma ensured_noop flag w r :
  sqlSelectOne flag (snapshot w) (keys (db w)) = Some r -> ensured flag w = tick w.
Proof.
  intros H. apply sqlSelectOne_has in H.
  destruct flag; [apply ensuredExpired_noop | apply ensuredActive_noop]; exact H.
Qed.

Lemma ensured_adds_at_most_one flag w :
  (length (keys (db (ensured flag w))) <= S (length (keys (db w))))%nat.
Proof.
  destruct flag; cbn [ensured]; unfold ensuredExpired, ensuredActive, after;
    [rewrite ensureExpiredKeyPresent_run | rewrite ensureActiveKeyPresent_run]; cbn [snd];
    [destruct (sqlHasExpired _ _) | destruct (sqlHasActive _ _)];
    unfold generated; try destruct (tableFull _);
    cbn [stored spent tick db keys]; rewrite ?length_app; simpl; lia.
Qed.

(** With the clock at [now] the JWKS handler answers from the row that
    [ensureActiveKeyPresent] left selectable. *)
Lemma jwksHandler_steady req res w now :
  Steady w now -> activeThrows w = false ->
  exists r,
    jwksHandler req res w = (jwksOk req res r now, tick (tick (ensuredActive w))) /\
    sqlSelectOne false now (keys (db (ensuredActive w))) = Some r.
Proof.
  intros Hs Hroom. rewrite jwksHandler_run, Hroom. cbv zeta.
  assert (Hl : Later w (ensuredActive w)) by apply Later_ensuredActive, Later_refl.
  pose proof (ensuredActive_hasActive w w now Hs (Later_refl w) Hroom) as Hact.
  rewrite (Steady_snapshot _ _ _ Hs Hl), (Steady_snapshot _ _ _ Hs (Later_tick _ _ Hl)).
  apply sqlHasActive_selects in Hact as [r Hr]. exists r.
  pose proof Hr as Hr'. simpl in Hr'. rewrite sqlOneActive_head in Hr'.
  destruct (sqlAllValid now (keys (db (ensuredActive w)))) as [|r' rest]; [discriminate|].
  injection Hr' as ->. split; [reflexivity | exact Hr].
Qed.

Lemma authHandler_steady req res w now flag :
  wantExpired req = Returned flag ->
  Steady w now -> ensureThrows flag w = false ->
  exists r,
    authHandler req res w =
      (authOk req res flag r now now, tick (tick (tick (ensured flag w)))) /\
    sqlSelectOne flag now (keys (db (ensured flag w))) = Some r.
Proof.
  intros Hflag Hs Hroom. rewrite (authHandler_run _ _ _ _ Hflag). cbv zeta. rewrite Hroom.
  assert (Hl : Later w (ensured flag w)) by apply Later_ensured, Later_refl.
  destruct (ensured_selects flag w w now Hs (Later_refl w) Hroom) as [r Hr].
  exists r. split; [|exact Hr].
  rewrite (Steady_snapshot _ _ _ Hs Hl), Hr,
    (Steady_snapshot _ _ _ Hs (Later_tick _ _ Hl)),
    (Steady_snapshot _ _ _ Hs (Later_tick _ _ (Later_tick _ _ Hl))).
  reflexivity.
Qed.

(** With the clock standing still only the first backfill can add a row. *)
Lemma jwksHandler_steady_db req res w now :
  Steady w now -> db (snd (jwksHandler req res w)) = db (ensuredActive w).
Proof.
  intros Hs. destruct (activeThrows w) eqn:T.
  - rewrite jwksHandler_run, T. reflexivity.
  - destruct (jwksHandler_steady req res w now Hs T) as (r & E & _). rewrite E. reflexivity.
Qed.

Lemma authHandler_steady_db req res w now flag :
  wantExpired req = Returned flag ->
  Steady w now -> db (snd (authHandler req res w)) = db (ensured flag w).
Proof.
  intros Hflag Hs. destruct (ensureThrows flag w) eqn:T.
  - rewrite (authHandler_run _ _ _ _ Hflag). cbv zeta. rewrite T. reflexivity.
  - destruct (authHandler_steady req res w now flag Hflag Hs T) as (r & E & _).
    rewrite E. reflexivity.
Qed.

Lemma authHandler_steady_length req res w now :
  Steady w now ->
  (length (keys (db (snd (authHandler req res w)))) <= 1 + length (keys (db w)))%nat.
Proof.
  intros Hs. destruct (wantExpired req) as [flag | message] eqn:Hflag.
  - rewrite (authHandler_steady_db _ _ _ _ _ Hflag Hs).
    pose proof (ensured_adds_at_most_one flag w). lia.
  - rewrite (authHandler_thrown _ _ _ _ Hflag). cbn [snd]. lia.
Qed.

(** X10. While the clock stands still and the table has room for two
    rows, and for two requests whose bodies the JSON body parser accepts,
    the first without validators, a token issued on the active path
    right after a JWKS request verifies against the published key: the
    one JWK of the JWKS answer, labelled ["key-active-1"], has the [kid]
    and [alg] of the token's header and is the public half of the key
    that signed the token, and the token expires 300 seconds after
    [iat = now]. A token issued on the expired path instead names
    ["key-expired-1"], which the JWKS answer does not publish, and its
    [exp] is not after [now]. *)
Theorem token_matches_published_key
    (jwksReq authReq : Request) (w : World) (now : Z) (flag : bool) :
  bodyParse jwksReq = BodyAccepted -> (forall b, fresh jwksReq b = false) ->
  method jwksReq = "GET" -> isJwksPath (path jwksReq) = true ->
  bodyParse authReq = BodyAccepted ->
  method authReq = "POST" -> pathMatches "/auth" (path authReq) = true ->
  wantExpired authReq = Returned flag ->
  Steady w now -> Room 2 (db w) ->
  let w1 := after (app jwksReq) w in
  exists jwk token,
    body (result (app jwksReq) w) = JsonKeys [jwk] /\
    body (result (app authReq) w1) = JsonToken token token /\
    Jwk.kid jwk = "key-active-1" /\
    Jwt.iat (Jwt.payload token) = now /\
    (flag = false ->
       Jwt.kid (Jwt.header token) = Jwk.kid jwk /\
       Jwt.alg (Jwt.header token) = Jwk.alg jwk /\
       RsaPublicKey (Jwt.signedBy token) = Jwk.n_e jwk /\
       Jwt.exp (Jwt.payload token) = now + 300) /\
    (flag = true ->
       Jwt.kid (Jwt.header token) = "key-expired-1" /\
       Jwt.kid (Jwt.header token) <> Jwk.kid jwk /\
       Jwt.exp (Jwt.payload token) <= now).
Proof.
  intros Hb1 Hstale Hm1 Hp1 Hb2 Hm2 Hp2 Hflag Hs Hroom w1. subst w1. unfold result, after.
  assert (Hh1 : method jwksReq <> "HEAD") by (rewrite Hm1; discriminate).
  assert (Hh2 : method authReq <> "HEAD") by (rewrite Hm2; discriminate).
  assert (T1 : activeThrows w = false)
    by (apply activeThrows_room, (Room_not_full 2); [lia | exact Hroom]).
  rewrite (app_get_jwks _ _ Hb1 Hm1 Hp1).
  destruct (jwksHandler_steady jwksReq corsResponse w now Hs T1) as (r & E1 & Hr).
  rewrite E1. cbn [fst snd].
  set (w0 := ensuredActive w) in *. set (w1 := tick (tick w0)).
  assert (Hl : Later w w1)
    by (subst w1 w0; auto using Later_tick, Later_ensuredActive, Later_refl).
  assert (Hs1 : Steady w1 now) by exact (Steady_Later _ _ _ Hs Hl).
  rewrite (app_post_auth _ _ Hb2 Hm2 Hp2).
  assert (T2 : ensureThrows flag w1 = false).
  { apply ensureThrows_room, (Room_not_full 1); [lia|].
    change (db w1) with (db (ensuredActive w)). apply (Room_ensuredActive 2), Hroom. }
  destruct (authHandler_steady authReq corsResponse w1 now flag Hflag Hs1 T2)
    as (r2 & E2 & Hr2).
  rewrite E2. cbn [fst].
  assert (Hgt : now < exp r).
  { apply sqlSelectOne_Some in Hr. destruct Hr as (? & ? & _ & Hq & _). exact Hq. }
  eexists _, _. unfold jwksOk, authOk. cbv zeta.
  rewrite (json_body_post authReq) by exact Hm2.
  rewrite (json_body jwksReq)
    by (try assumption; cbn [status setStatus]; rewrite isFresh_get by exact Hm1;
        apply Hstale).
  split; [reflexivity|]. split; [reflexivity|].
  cbn [publicJwkFromPrivateKey signJwt keyObjectFromDbRow Jwk.kid Jwk.alg Jwk.n_e
       Jwt.header Jwt.payload Jwt.kid Jwt.alg Jwt.iat Jwt.exp Jwt.signedBy].
  rewrite (labelAt_active _ _ Hgt).
  split; [reflexivity|]. split; [reflexivity|]. split.
  - intros Hf. rewrite Hf in *. cbn [ensured] in Hr2.
    assert (Hsame : ensuredActive w1 = tick w1).
    { apply ensuredActive_noop. rewrite (Steady_snapshot _ _ _ Hs1 (Later_refl w1)).
      apply (sqlSelectOne_has false now _ r Hr). }
    rewrite Hsame in Hr2. change (db (tick w1)) with (db w0) in Hr2.
    rewrite Hr in Hr2. injection Hr2 as <-.
    rewrite (labelAt_active _ _ Hgt). repeat split; lia.
  - intros Hf. rewrite Hf in *.
    assert (Hle : exp r2 <= now).
    { apply sqlSelectOne_Some in Hr2. destruct Hr2 as (? & ? & _ & Hq & _). exact Hq. }
    rewrite (labelAt_expired _ _ Hle). repeat split; [discriminate|].
    rewrite <- (Hs (ticks w) (le_n _)) in Hle |- *. apply expOf_le, Hle.
Qed.

Lemma token_matches_published_key_witness :
  let w := worldAt 1700000000000 emptyDb in
  let w1 := after (app (GET "/jwks")) w in
  exists jwk token,
    body (result (app (GET "/jwks")) w) = JsonKeys [jwk] /\
    body (result (app (POST "/auth" ∅)) w1) = JsonToken token token /\
    Jwk.kid jwk = "key-active-1" /\
    Jwt.iat (Jwt.payload token) = 1700000000 /\
    (false = false ->
       Jwt.kid (Jwt.header token) = Jwk.kid jwk /\
       Jwt.alg (Jwt.header token) = Jwk.alg jwk /\
       RsaPublicKey (Jwt.signedBy token) = Jwk.n_e jwk /\
       Jwt.exp (Jwt.payload token) = 1700000000 + 300) /\
    (false = true ->
       Jwt.kid (Jwt.header token) = "key-expired-1" /\
       Jwt.kid (Jwt.header token) <> Jwk.kid jwk /\
       Jwt.exp (Jwt.payload token) <= 1700000000).
Proof.
  intros w w1.
  apply (token_matches_published_key (GET "/jwks") (POST "/auth" ∅) w 1700000000 false
           eq_refl (fun _ => eq_refl) eq_refl eq_refl eq_refl eq_refl eq_refl).
  - vm_compute. reflexivity.
  - intros i _. reflexivity.
  - unfold Room, lastRowid. simpl. lia.
Defined.

(** ** How many rows a request adds *)

Lemma handlers_add_at_most_two req res w :
  (length (keys (db (after (jwksHandler req res) w))) <= 2 + length (keys (db w)))%nat /\
  (length (keys (db (after (authHandler req res) w))) <= 2 + length (keys (db w)))%nat.
Proof.
  unfold after. rewrite jwksHandler_run.
  destruct (wantExpired req) as [flag | message] eqn:Hflag;
    [rewrite (authHandler_run _ _ _ _ Hflag) | rewrite (authHandler_thrown _ _ _ _ Hflag)];
    cbv zeta.
  2:{ pose proof (ensured_adds_at_most_one false w) as A1.
      pose proof (ensured_adds_at_most_one false (tick (ensuredActive w))) as A2.
      cbn [ensured tick db] in A1, A2. split; [|cbn [snd]; lia].
      destruct (activeThrows w); [cbn [snd]; lia|].
      destruct (sqlAllValid _ _) as [|r rest];
        [destruct (activeThrows _); [cbn [snd]; lia|];
         destruct (sqlAllValid _ _) as [|r rest]|]; cbn [snd tick db]; lia. }
  pose proof (ensured_adds_at_most_one false w) as A1.
  pose proof (ensured_adds_at_most_one false (tick (ensuredActive w))) as A2.
  pose proof (ensured_adds_at_most_one flag w) as B1.
  pose proof (ensured_adds_at_most_one flag (tick (ensured flag w))) as B2.
  cbn [ensured tick db] in A1, A2, B2. split.
  - destruct (activeThrows w); [cbn [snd]; lia|].
    destruct (sqlAllValid _ _) as [|r rest];
      [destruct (activeThrows _); [cbn [snd]; lia|];
       destruct (sqlAllValid _ _) as [|r rest]|]; cbn [snd tick db]; lia.
  - destruct (ensureThrows flag w); [cbn [snd]; lia|].
    destruct (sqlSelectOne _ _ _) as [row|];
      [|destruct (ensureThrows flag _); [cbn [snd]; lia|];
        destruct (sqlSelectOne _ _ _) as [row|]]; cbn [snd tick db]; lia.
Qed.

(** X11. A request adds at most two rows to the table, and only the two
    route handlers add any (a request whose body the JSON body parser
    rejects reaches neither and adds none). While the clock stands still a request adds
    at most one row, and none at all when the table already holds a row
    of the kind it needs: an active one for the JWKS route and the active
    path of [/auth], an expired one for the expired path. *)
Theorem requests_add_few_rows (req : Request) (w : World) :
  let w' := after (app req) w in
  (length (keys (db w')) <= 2 + length (keys (db w)))%nat /\
  (forall now, Steady w now ->
     (length (keys (db w')) <= 1 + length (keys (db w)))%nat /\
     (method req = "GET" -> isJwksPath (path req) = true ->
      sqlHasActive now (keys (db w)) = true -> db w' = db w) /\
     (method req = "POST" -> pathMatches "/auth" (path req) = true ->
      (forall flag, wantExpired req = Returned flag ->
         (if flag then sqlHasExpired now (keys (db w))
          else sqlHasActive now (keys (db w))) = true ->
         db w' = db w) /\
      (forall message, wantExpired req = Thrown message -> db w' = db w))).
Proof.
  intros w'. subst w'. unfold after. split.
  - destruct (handlers_add_at_most_two req corsResponse w) as [Hj Ha]. unfold after in Hj, Ha.
    destruct (app_cases req w)
      as [(e & _ & E) | (_ & [E | [(_ & _ & E) | [E | [(_ & _ & E) | [E | E]]]]])];
      rewrite E; cbn [snd]; try assumption; lia.
  - intros now Hs.
    pose proof (jwksHandler_steady_db req corsResponse w now Hs) as E1.
    pose proof (authHandler_steady_length req corsResponse w now Hs) as E2.
    pose proof (ensured_adds_at_most_one false w) as A1.
    cbn [ensured] in A1.
    split; [|split].
    + destruct (app_cases req w)
        as [(e & _ & E) | (_ & [E | [(_ & _ & E) | [E | [(_ & _ & E) | [E | E]]]]])];
        rewrite E, ?E1; cbn [snd tick db]; lia.
    + intros Hm Hp Hact.
      destruct (bodyParse req) as [|e] eqn:Hb;
        [|rewrite (app_rejected _ _ _ Hb); reflexivity].
      rewrite (app_get_jwks _ _ Hb Hm Hp), E1.
      rewrite ensuredActive_noop; [reflexivity|].
      rewrite (Steady_snapshot _ _ _ Hs (Later_refl w)). exact Hact.
    + intros Hm Hp.
      destruct (bodyParse req) as [|e] eqn:Hb;
        [|rewrite (app_rejected _ _ _ Hb); split; reflexivity].
      rewrite (app_post_auth _ _ Hb Hm Hp). split.
      * intros flag Hflag Hhas.
        rewrite (authHandler_steady_db _ _ _ _ _ Hflag Hs).
        replace (ensured flag w) with (tick w); [reflexivity|].
        symmetry. destruct flag; cbn [ensured];
          [apply ensuredExpired_noop | apply ensuredActive_noop];
          rewrite (Steady_snapshot _ _ _ Hs (Later_refl w)); exact Hhas.
      * intros message Hflag. rewrite (authHandler_thrown _ _ _ _ Hflag). reflexivity.
Qed.

Lemma requests_add_few_rows_witness :
  db (after (app (GET "/.well-known/jwks.json")) seeded) = db seeded /\
  db (after (app (POST "/auth" {["expired" := QString "true"]})) seeded) = db seeded.
Proof.
  assert (Hs : Steady seeded 1700000000) by (intros i _; reflexivity).
  split.
  - apply (proj1 (proj2 (proj2 (requests_add_few_rows (GET "/.well-known/jwks.json") seeded)
                           1700000000 Hs))); reflexivity.
  - apply (proj1 (proj2 (proj2 (proj2 (requests_add_few_rows
                                         (POST "/auth" {["expired" := QString "true"]}) seeded)
                                  1700000000 Hs)) eq_refl eq_refl) true); reflexivity.
Defined.


(** ** The backfill heals an aged-out store *)

Lemma ticks_ensuredActive w :
  (ticks w < ticks (ensuredActive w) <= ticks w + 2)%nat.
Proof.
  unfold ensuredActive, after. rewrite ensureActiveKeyPresent_run. cbn [snd].
  destruct (sqlHasActive _ _); [simpl; lia|].
  unfold generated. destruct (tableFull _); simpl; lia.
Qed.

Lemma sqlAllValid_nil_hasActive t rows :
  sqlAllValid t rows = [] <-> sqlHasActive t rows = false.
Proof.
  split.
  - intros E. destruct (sqlHasActive t rows) eqn:H; [|reflexivity].
    apply sqlHasActive_selects in H as [r Hr]. simpl in Hr.
    rewrite sqlOneActive_head, E in Hr. discriminate.
  - intros H. destruct (sqlAllValid t rows) as [|r rest] eqn:E; [reflexivity|].
    apply sqlAllValid_head_active in E as [E _].
    apply (sqlSelectOne_has false) in E. simpl in E. congruence.
Qed.

Lemma sqlSelectOne_active_None t rows :
  sqlSelectOne false t rows = None <-> sqlHasActive t rows = false.
Proof.
  rewrite <- sqlAllValid_nil_hasActive. simpl. rewrite sqlOneActive_head.
  destruct (sqlAllValid t rows); simpl; split; congruence.
Qed.

(** If no row is active after the first backfill, the second backfill
    generates a key that the selection after it finds. *)
Lemma second_backfill_succeeds w0 v :
  Orderly w0 -> Later w0 v -> (ticks v <= ticks w0 + 2)%nat ->
  tableFull (db v) = false ->
  sqlHasActive (snapshot v) (keys (db v)) = false ->
  sqlHasActive (snapshot (ensuredActive (tick v))) (keys (db (ensuredActive (tick v)))) = true.
Proof.
  intros Ho Hl Ht Hroom Hnone.
  assert (Hl1 : Later w0 (tick v)) by apply Later_tick, Hl.
  destruct Hl as [Hc Hge].
  assert (Hsec : forall u, Later w0 u -> snapshot u = secondAt w0 (ticks u))
    by (intros u Hu; apply snapshot_Later, Hu).
  assert (Hnone' : sqlHasActive (snapshot (tick v)) (keys (db (tick v))) = false).
  { destruct (sqlHasActive (snapshot (tick v)) (keys (db (tick v)))) eqn:E; [|reflexivity].
    rewrite <- Hnone. symmetry. refine (sqlHasActive_earlier _ _ _ _ E).
    rewrite (Hsec _ Hl1), (Hsec v (conj Hc Hge)). apply Ho; simpl; lia. }
  rewrite (ensuredActive_eq (tick v)) by (apply activeThrows_room; exact Hroom).
  rewrite Hnone'.
  cbn [stored db keys]. rewrite sqlHasActive_app. apply orb_true_iff. right.
  unfold sqlHasActive, isActiveAt. cbn [existsb exp].
  rewrite Qfloor_Z, jsAdd_snapshot by lia.
  apply orb_true_iff. left. apply Z.ltb_lt.
  rewrite (Hsec (tick (tick v))) by auto using Later_tick.
  rewrite (Hsec (stored (inject_Z (60 * 60)) (tick (tick v))))
    by auto using Later_tick, Later_stored.
  cbn [ticks stored tick].
  pose proof (Ho (S (S (ticks v))) (S (S (S (ticks v)))) ltac:(lia) ltac:(lia) ltac:(lia)).
  lia.
Qed.

(** X12. When the clock reads of a request go forward and span less than
    an hour, the table has room for two rows and the JSON body parser
    accepts the request's body, the backfill always leaves a key to
    answer with, whatever the table held before: a GET on a JWKS path is never answered 404 but 200, or 304
    when the request carries validators that match, and a POST on
    [/auth] on the active path is answered 200, never 401. (A body that
    the parser rejects is answered with the parser's error, before
    either handler runs.) *)
Theorem backfill_heals_aged_out_store (req : Request) (w : World) :
  Orderly w ->
  Room 2 (db w) ->
  bodyParse req = BodyAccepted ->
  (method req = "GET" -> isJwksPath (path req) = true ->
   (status (result (app req) w) = 200 \/ status (result (app req) w) = 304) /\
   ((forall b, fresh req b = false) -> status (result (app req) w) = 200)) /\
  (method req = "POST" -> pathMatches "/auth" (path req) = true ->
   wantExpired req = Returned false ->
   status (result (app req) w) = 200).
Proof.
  intros Ho Hroom Hb.
  pose proof (ticks_ensuredActive w) as Ht.
  assert (Hl : Later w (ensuredActive w)) by apply Later_ensuredActive, Later_refl.
  assert (Hroom1 : tableFull (db (ensuredActive w)) = false)
    by (apply (Room_not_full 1); [lia | apply (Room_ensuredActive 2), Hroom]).
  split.
  - intros Hm Hp.
    assert (Hok : forall r t,
      let resp := jwksOk req corsResponse r t in
      (status resp = 200 \/ status resp = 304) /\
      ((forall b, fresh req b = false) -> status resp = 200)).
    { intros r t resp. subst resp.
      pose proof (jwksOk_answer req corsResponse r t Hm) as Hans. unfold Answered200 in Hans.
      destruct (fresh req _) eqn:Hf; destruct Hans as [Hst _]; rewrite Hst.
      - split; [right; reflexivity|]. intros Hstale. rewrite Hstale in Hf. discriminate Hf.
      - split; [left; reflexivity | reflexivity]. }
    unfold result.
    rewrite (app_get_jwks _ _ Hb Hm Hp), (jwksHandler_run_room _ _ _ Hroom). cbv zeta.
    destruct (sqlAllValid (snapshot (ensuredActive w)) _) as [|r rest] eqn:E1;
      [|apply Hok].
    apply sqlAllValid_nil_hasActive in E1.
    pose proof (second_backfill_succeeds w _ Ho Hl ltac:(lia) Hroom1 E1) as H3.
    destruct (sqlAllValid (snapshot (ensuredActive (tick (ensuredActive w)))) _) eqn:E3;
      [|apply Hok].
    apply sqlAllValid_nil_hasActive in E3. congruence.
  - intros Hm Hp Hf. unfold result.
    rewrite (app_post_auth _ _ Hb Hm Hp), (authHandler_run_room _ _ _ _ Hf Hroom).
    cbv zeta. cbn [ensured].
    destruct (sqlSelectOne false (snapshot (ensuredActive w)) _) as [row|] eqn:E1;
      [apply authOk_status, Hm|].
    apply sqlSelectOne_active_None in E1.
    pose proof (second_backfill_succeeds w _ Ho Hl ltac:(lia) Hroom1 E1) as H3.
    destruct (sqlSelectOne false (snapshot (ensuredActive (tick (ensuredActive w)))) _)
      as [row|] eqn:E3; [apply authOk_status, Hm|].
    apply sqlSelectOne_active_None in E3. congruence.
Qed.

(** A key that expires between the check and the selection is replaced
    within the same request. *)
Lemma backfill_heals_aged_out_store_witness :
  let w := {| db := {| keys := [mkRow 1 (RsaPrivateKey 0) 1]; sqlite_sequence := 1 |};
              clock := fun i => 1000 * Z.of_nat i; ticks := 0; keypairs := 1 |} in
  status (result (app (GET "/jwks")) w) = 200 /\
  keys (db (after (app (GET "/jwks")) w)) =
    [mkRow 1 (RsaPrivateKey 0) 1; mkRow 2 (RsaPrivateKey 1) 3603].
Proof.
  intros w. split; [|reflexivity].
  assert (Ho : Orderly w).
  { intros i j _ Hij Hj. unfold secondAt. cbn [w clock ticks] in *.
    rewrite !timeValue_in_range by (unfold maxTime; lia).
    rewrite !(Z.mul_comm 1000), !Z.div_mul by lia. lia. }
  assert (Hroom : Room 2 (db w)) by (unfold Room, lastRowid; simpl; lia).
  apply (proj1 (backfill_heals_aged_out_store (GET "/jwks") w Ho Hroom eq_refl));
    reflexivity.
Defined.

(** ** When a request is answered 500 *)

Lemma jwksOk_status req res r t :
  method req = "GET" ->
  status (jwksOk req res r t) = 200 \/ status (jwksOk req res r t) = 304.
Proof.
  intros Hm. pose proof (jwksOk_answer req res r t Hm) as H. unfold Answered200 in H.
  destruct (fresh req _); destruct H as [H _]; auto.
Qed.

(** X13. A request is answered 500 only by the [catch] of one of the two
    routes. Either the insert of a backfill found the table full: the
    request is a GET on a JWKS path or a POST on [/auth], the body is
    [{error: "database or disk is full"}], the table is full afterwards
    and held no row of the kind the route needs at the second the
    backfill read. Or the request is a POST on [/auth] whose [expired]
    parameter has no conversion to text: the body carries the message of
    the [TypeError], and the store and the clock are as before. With room
    for two rows only the second happens. *)
Theorem server_error_causes (req : Request) (w : World) :
  let resp := result (app req) w in
  let w' := after (app req) w in
  (status resp = 500 ->
   bodyParse req = BodyAccepted /\
   ((method req = "GET" /\ isJwksPath (path req) = true /\
     body resp = JsonError SQLITE_FULL /\
     tableFull (db w') = true /\
     forall r, In r (keys (db w')) -> ~ qualifies false (lastRead w' 2) r) \/
    (method req = "POST" /\ pathMatches "/auth" (path req) = true /\
     ((exists flag,
         wantExpired req = Returned flag /\
         body resp = JsonError SQLITE_FULL /\
         tableFull (db w') = true /\
         forall r, In r (keys (db w')) -> ~ qualifies flag (lastRead w' 2) r) \/
      (wantExpired req = Thrown notPrimitive /\
       body resp = JsonError notPrimitive /\ w' = w))))) /\
  (Room 2 (db w) -> status resp = 500 ->
   method req = "POST" /\ pathMatches "/auth" (path req) = true /\
   wantExpired req = Thrown notPrimitive).
Proof.
  intros resp w'. subst resp w'. unfold result, after.
  assert (Hthrown : forall flag v,
    ensureThrows flag v = true ->
    tableFull (db (ensured flag v)) = true /\
    forall r, In r (keys (db (ensured flag v))) ->
      ~ qualifies flag (lastRead (ensured flag v) 2) r).
  { intros flag v Hv. destruct (ensureThrows_true flag v Hv) as (Hfull & -> & Hnone).
    split; [exact Hfull|].
    change (lastRead (spent (tick v)) 2) with (lastRead (tick (tick v)) 2).
    rewrite lastRead_tick_tick. exact Hnone. }
  destruct (app_cases req w)
    as [(e & He & E) | (Hb & [E | [(Hm & Hp & E) | [E | [(Hm & Hp & E) | [E | E]]]]])];
    rewrite E; cbn [fst snd].
  - split; [intros Hst; destruct e; discriminate Hst|].
    intros _ Hst. destruct e; discriminate Hst.
  - split; [intros Hst; discriminate Hst | intros _ Hst; discriminate Hst].
  - assert (Hhead : method req <> "HEAD") by (rewrite Hm; discriminate).
    split.
    + rewrite jwksHandler_run. cbv zeta.
      destruct (activeThrows w) eqn:T1; cbn [fst snd].
      * intros _. split; [exact Hb|]. left. split; [exact Hm|]. split; [exact Hp|].
        split; [apply serverError_body, Hhead|]. exact (Hthrown false w T1).
      * destruct (sqlAllValid _ _) as [|r rest];
          [|cbn [fst]; intros Hst;
            destruct (jwksOk_status req corsResponse r
                        (snapshot (tick (ensuredActive w))) Hm) as [H | H];
            rewrite H in Hst; discriminate Hst].
        destruct (activeThrows (tick (ensuredActive w))) eqn:T3; cbn [fst snd].
        -- intros _. split; [exact Hb|]. left. split; [exact Hm|]. split; [exact Hp|].
           split; [apply serverError_body, Hhead|].
           exact (Hthrown false (tick (ensuredActive w)) T3).
        -- destruct (sqlAllValid _ _) as [|r rest]; cbn [fst]; intros Hst;
             [discriminate Hst|].
           destruct (jwksOk_status req corsResponse r
                       (snapshot (tick (ensuredActive (tick (ensuredActive w))))) Hm)
             as [H | H]; rewrite H in Hst; discriminate Hst.
    + intros Hroom. rewrite (jwksHandler_run_room _ _ _ Hroom). cbv zeta.
      destruct (sqlAllValid _ _) as [|r rest];
        [destruct (sqlAllValid _ _) as [|r rest]|]; cbn [fst];
        try discriminate; intros Hst;
        match type of Hst with
        | status (jwksOk _ _ ?r ?t) = _ =>
            destruct (jwksOk_status req corsResponse r t Hm) as [H | H];
            rewrite H in Hst; discriminate Hst
        end.
  - split; [intros Hst; discriminate Hst | intros _ Hst; discriminate Hst].
  - assert (Hhead : method req <> "HEAD") by (rewrite Hm; discriminate).
    destruct (wantExpired req) as [flag | message] eqn:Hflag.
    2:{ destruct (wantExpired_thrown _ _ Hflag) as [-> _].
        rewrite (authHandler_thrown _ _ _ _ Hflag). cbn [fst snd]. split.
        - intros _. split; [exact Hb|]. right. split; [exact Hm|]. split; [exact Hp|].
          right. split; [reflexivity|]. split; [apply serverError_body, Hhead | reflexivity].
        - intros _ _. auto. }
    split.
    + rewrite (authHandler_run _ _ _ _ Hflag). cbv zeta.
      destruct (ensureThrows flag w) eqn:T1; cbn [fst snd].
      * intros _. split; [exact Hb|]. right. split; [exact Hm|]. split; [exact Hp|].
        left. exists flag. split; [reflexivity|].
        split; [apply serverError_body, Hhead|]. exact (Hthrown _ w T1).
      * destruct (sqlSelectOne _ _ _) as [row|];
          [cbn [fst]; rewrite authOk_status by exact Hm; discriminate|].
        destruct (ensureThrows flag (tick (ensured flag w)))
          eqn:T3; cbn [fst snd].
        -- intros _. split; [exact Hb|]. right. split; [exact Hm|]. split; [exact Hp|].
           left. exists flag. split; [reflexivity|].
           split; [apply serverError_body, Hhead|].
           exact (Hthrown _ (tick (ensured flag w)) T3).
        -- destruct (sqlSelectOne _ _ _) as [row|]; cbn [fst];
             rewrite ?authOk_status by exact Hm; discriminate.
    + intros Hroom. rewrite (authHandler_run_room _ _ _ _ Hflag Hroom). cbv zeta.
      destruct (sqlSelectOne _ _ _) as [row|];
        [|destruct (sqlSelectOne _ _ _) as [row|]]; cbn [fst];
        rewrite ?authOk_status by exact Hm; discriminate.
  - split; [intros Hst; discriminate Hst | intros _ Hst; discriminate Hst].
  - split; [intros Hst; discriminate Hst | intros _ Hst; discriminate Hst].
Qed.

Lemma server_error_causes_witness :
  let req := POST "/auth" {["expired" := QObject [("toString", QString "1")]]} in
  method req = "POST" /\ pathMatches "/auth" (path req) = true /\
  wantExpired req = Thrown notPrimitive.
Proof.
  intros req.
  apply (proj2 (server_error_causes req seeded)).
  - vm_compute. discriminate.
  - reflexivity.
Defined.

(** A full table and a request for a key of a kind that it lacks. *)
Example auth_table_full :
  body (result (app (POST "/auth" ∅)) fullAndEmpty) = JsonError "database or disk is full" /\
  status (result (app (POST "/auth" ∅)) fullAndEmpty) = 500.
Proof. split; reflexivity. Qed.
